(** * swan-go: the decode pipeline, the storage-operation URL composer and
      the error helpers, embedded and verified.

    Go code embedded here, all of package [swan]:
    - [handlerDecodeAsJSON], [decrypt], [encodeAsOWID], [createSID];
    - from the file that registers the handlers: [newResponseError],
      [returnAPIError], [returnRequestError], [returnServerError],
      [removeHTMLWhiteSpace];
    - [handlerFetch], [createStorageOperationURL].

    A Go [string] is a sequence of bytes: it is a Rocq [string] (a sequence
    of 8-bit [ascii]), and [list ascii] where the code indexes or ranges
    over it.  A Go [error] is its message; [option error] is a possibly nil
    error.  A handler is a function on [State], which holds what it can
    change: the cached access node, the response, the console, and the
    record of what it asked of the world outside. *)

From Stdlib Require Import ZArith String Ascii List Lia ZifyBool Bool.
From stdpp Require Import gmap strings list sorting pretty.

Import ListNotations.
Local Open Scope Z_scope.

(** ** Bytes and runes *)

Definition byteZ (a : ascii) : Z := Z.of_N (N_of_ascii a).
Definition byteA (z : Z) : ascii := ascii_of_N (Z.to_N z).

Definition rune := Z.

Definition RuneError : rune := 0xFFFD.
Definition MaxRune : rune := 0x10FFFF.

(** [first[s0]] of package utf8, for a lead byte [s0 >= 0x80]: the size of
    the sequence and the accepted range of its second byte; [None] is the
    table's [xx] (an invalid lead byte). *)
Definition first (s0 : Z) : option (nat * Z * Z) :=
  if s0 <? 0xC2 then None
  else if s0 <=? 0xDF then Some (2%nat, 0x80, 0xBF)
  else if s0 =? 0xE0 then Some (3%nat, 0xA0, 0xBF)
  else if s0 <=? 0xEC then Some (3%nat, 0x80, 0xBF)
  else if s0 =? 0xED then Some (3%nat, 0x80, 0x9F)
  else if s0 <=? 0xEF then Some (3%nat, 0x80, 0xBF)
  else if s0 =? 0xF0 then Some (4%nat, 0x90, 0xBF)
  else if s0 <=? 0xF3 then Some (4%nat, 0x80, 0xBF)
  else if s0 =? 0xF4 then Some (4%nat, 0x80, 0x8F)
  else None.

Definition notcont (b : Z) : bool := (b <? 0x80) || (0xBF <? b).

Definition at_ (s : list ascii) (i : nat) : Z := byteZ (nth i s zero).

(** [utf8.DecodeRuneInString]: the first rune of [s] and its width in
    bytes.  The masks and shifts of the Go code are written as the
    arithmetic they perform on the accepted byte ranges:
    [s0&mask2<<6 | s1&maskx] is [(s0 - 0xC0) * 64 + (s1 - 0x80)], and so
    on. *)
Definition DecodeRune (s : list ascii) : rune * nat :=
  match s with
  | [] => (RuneError, 0%nat)
  | a0 :: _ =>
    let s0 := byteZ a0 in
    if s0 <? 0x80 then (s0, 1%nat)
    else
      match first s0 with
      | None => (RuneError, 1%nat)
      | Some (sz, lo, hi) =>
        if (length s <? sz)%nat then (RuneError, 1%nat)
        else
          let s1 := at_ s 1 in
          if (s1 <? lo) || (hi <? s1) then (RuneError, 1%nat)
          else if (sz <=? 2)%nat then ((s0 - 0xC0) * 64 + (s1 - 0x80), 2%nat)
          else
            let s2 := at_ s 2 in
            if notcont s2 then (RuneError, 1%nat)
            else if (sz <=? 3)%nat
            then ((s0 - 0xE0) * 4096 + (s1 - 0x80) * 64 + (s2 - 0x80), 3%nat)
            else
              let s3 := at_ s 3 in
              if notcont s3 then (RuneError, 1%nat)
              else ((s0 - 0xF0) * 262144 + (s1 - 0x80) * 4096
                    + (s2 - 0x80) * 64 + (s3 - 0x80), 4%nat)
      end
  end.

(** [utf8.AppendRune], which [strings.Builder.WriteRune] calls: the UTF-8
    encoding of [r]; a rune out of range or a surrogate is written as
    [RuneError]. *)
Definition AppendRune (r : rune) : list ascii :=
  if (0 <=? r) && (r <=? 0x7F) then [byteA r]
  else if (0 <=? r) && (r <=? 0x7FF)
  then [byteA (0xC0 + r / 64); byteA (0x80 + r mod 64)]
  else if (r <? 0) || (MaxRune <? r) || ((0xD800 <=? r) && (r <=? 0xDFFF))
  then [byteA 0xEF; byteA 0xBF; byteA 0xBD]
  else if r <=? 0xFFFF
  then [byteA (0xE0 + r / 4096); byteA (0x80 + (r / 64) mod 64);
        byteA (0x80 + r mod 64)]
  else [byteA (0xF0 + r / 262144); byteA (0x80 + (r / 4096) mod 64);
        byteA (0x80 + (r / 64) mod 64); byteA (0x80 + r mod 64)].

(** [for i, r := range h]: the pairs (byte index, rune) the loop visits.
    [i] is the index of the first byte of [h] here, and [skip] the number
    of bytes of [h] that still belong to the rune read before. *)
Fixpoint rangeFrom (i : nat) (skip : nat) (h : list ascii) : list (nat * rune) :=
  match h with
  | [] => []
  | _ :: t =>
    match skip with
    | S k => rangeFrom (S i) k t
    | O => let '(r, w) := DecodeRune h in (i, r) :: rangeFrom (S i) (w - 1) t
    end
  end.

Definition rangeString (h : list ascii) : list (nat * rune) := rangeFrom 0 0 h.

(** ** The whitespace normalizer *)

Definition CR : rune := 13.
Definition LF : rune := 10.
Definition TAB : rune := 9.
Definition SP : rune := 32.

(** The body of the loop of [removeHTMLWhiteSpace] at index [i] with rune
    [r]: what [sb] receives. *)
Definition writeAt (h : list ascii) (i : nat) (r : rune) : list ascii :=
  if negb (r =? CR) && negb (r =? LF) && negb (r =? TAB) then
    if (i =? 0)%nat || negb (r =? SP) || negb (at_ h (i - 1) =? SP)
    then AppendRune r
    else []
  else [].

Definition removeHTMLWhiteSpaceBytes (h : list ascii) : list ascii :=
  flat_map (fun ir => writeAt h (fst ir) (snd ir)) (rangeString h).

Definition removeHTMLWhiteSpace (h : string) : string :=
  string_of_list_ascii (removeHTMLWhiteSpaceBytes (list_ascii_of_string h)).

Definition nl : string := String (ascii_of_nat 10) EmptyString.
Definition tab : string := String (ascii_of_nat 9) EmptyString.

Example normalize_spec_input :
  removeHTMLWhiteSpace ("a   b" +:+ nl +:+ tab +:+ "c") = "a bc"%string.
Proof. vm_compute. reflexivity. Qed.

Example normalize_twice :
  removeHTMLWhiteSpace ("a " +:+ nl +:+ " b") = "a  b"%string
  /\ removeHTMLWhiteSpace "a  b" = "a b"%string.
Proof. vm_compute. split; reflexivity. Qed.

(* "héllo €" with an invalid byte 0xFF in between *)
Example normalize_utf8 :
  removeHTMLWhiteSpaceBytes (map byteA [0x68; 0xC3; 0xA9; 0xFF; 0x20; 0x20; 0xE2; 0x82; 0xAC; 0xF0; 0x9F; 0x98; 0x80])
  = map byteA [0x68; 0xC3; 0xA9; 0xEF; 0xBF; 0xBD; 0x20; 0xE2; 0x82; 0xAC; 0xF0; 0x9F; 0x98; 0x80].
Proof. vm_compute. reflexivity. Qed.

(** ** Facts about the UTF-8 decoder and encoder *)

Lemma byteZ_range a : 0 <= byteZ a < 256.
Proof.
  unfold byteZ. pose proof (N_ascii_bounded a). lia.
Qed.

Lemma byteZ_byteA z : 0 <= z < 256 -> byteZ (byteA z) = z.
Proof.
  intros Hz. unfold byteZ, byteA.
  rewrite N_ascii_embedding by lia. lia.
Qed.

Lemma byteA_byteZ a : byteA (byteZ a) = a.
Proof.
  unfold byteZ, byteA. rewrite N2Z.id. apply ascii_N_embedding.
Qed.

Lemma byteZ_inj a b : byteZ a = byteZ b -> a = b.
Proof.
  intros H. rewrite <- (byteA_byteZ a), <- (byteA_byteZ b). now rewrite H.
Qed.

Definition validRune (r : rune) : Prop :=
  0 <= r <= MaxRune /\ ~ (0xD800 <= r <= 0xDFFF).

Lemma first_inv s0 sz lo hi :
  first s0 = Some (sz, lo, hi) ->
  0x80 <= lo /\ hi <= 0xBF /\
  ((sz = 2%nat /\ 0xC2 <= s0 <= 0xDF)
   \/ (sz = 3%nat /\ 0xE0 <= s0 <= 0xEF
       /\ (s0 = 0xE0 -> 0xA0 <= lo) /\ (s0 = 0xED -> hi <= 0x9F))
   \/ (sz = 4%nat /\ 0xF0 <= s0 <= 0xF4
       /\ (s0 = 0xF0 -> 0x90 <= lo) /\ (s0 = 0xF4 -> hi <= 0x8F))).
Proof.
  unfold first. intros H.
  repeat match type of H with
  | (if ?c then _ else _) = _ => destruct c eqn:?
  end; inversion H; subst; lia.
Qed.

Lemma DecodeRune_spec a s r w :
  DecodeRune (a :: s) = (r, w) ->
  (1 <= w <= length (a :: s))%nat /\ validRune r
  /\ (r < 0x80 -> w = 1%nat /\ r = byteZ a)
  /\ (0x80 <= r -> 0x80 <= at_ (a :: s) (w - 1)).
Proof.
  unfold DecodeRune, notcont, validRune, MaxRune, RuneError.
  pose proof (byteZ_range a) as Ha.
  pose proof (byteZ_range (nth 1 (a :: s) zero)) as H1.
  pose proof (byteZ_range (nth 2 (a :: s) zero)) as H2.
  pose proof (byteZ_range (nth 3 (a :: s) zero)) as H3.
  fold (at_ (a :: s) 1) in H1. fold (at_ (a :: s) 2) in H2.
  fold (at_ (a :: s) 3) in H3.
  change (byteZ a) with (at_ (a :: s) 0) in *.
  remember (at_ (a :: s) 1) as b1 eqn:E1.
  remember (at_ (a :: s) 2) as b2 eqn:E2.
  remember (at_ (a :: s) 3) as b3 eqn:E3.
  intros H.
  destruct (at_ (a :: s) 0 <? 128) eqn:E0.
  { inversion H; subst. cbn [Nat.sub length]. lia. }
  destruct (first (at_ (a :: s) 0)) as [[[sz lo] hi]|] eqn:Hf.
  2:{ inversion H; subst. cbn [Nat.sub length]. lia. }
  apply first_inv in Hf.
  repeat match type of H with
  | (if ?c then _ else _) = _ => destruct c eqn:?
  end; inversion H; subst; cbn [Nat.sub length] in *;
  rewrite <- ?E1, <- ?E2, <- ?E3; lia.
Qed.

Lemma AppendRune_length r : (1 <= length (AppendRune r) <= 4)%nat.
Proof.
  unfold AppendRune.
  repeat match goal with
  | |- context [if ?c then _ else _] => destruct c
  end; cbn [length]; lia.
Qed.

Lemma first_two s0 : 0xC2 <= s0 <= 0xDF -> first s0 = Some (2%nat, 0x80, 0xBF).
Proof.
  intros H. unfold first.
  repeat match goal with
  | |- context [if ?c then _ else _] => destruct c eqn:?
  end; try reflexivity; lia.
Qed.

Lemma first_three s0 :
  0xE0 <= s0 <= 0xEF ->
  first s0 = Some (3%nat, if s0 =? 0xE0 then 0xA0 else 0x80,
                   if s0 =? 0xED then 0x9F else 0xBF).
Proof.
  intros H. unfold first.
  repeat match goal with
  | |- context [if ?c then _ else _] => destruct c eqn:?
  end; try reflexivity; lia.
Qed.

Lemma first_four s0 :
  0xF0 <= s0 <= 0xF4 ->
  first s0 = Some (4%nat, if s0 =? 0xF0 then 0x90 else 0x80,
                   if s0 =? 0xF4 then 0x8F else 0xBF).
Proof.
  intros H. unfold first.
  repeat match goal with
  | |- context [if ?c then _ else _] => destruct c eqn:?
  end; try reflexivity; lia.
Qed.

Ltac dlia := Z.div_mod_to_equations; lia.

(** Decoding what the encoder wrote gives the rune back, whatever
    follows. *)
Lemma DecodeRune_AppendRune r rest :
  validRune r ->
  DecodeRune (AppendRune r ++ rest) = (r, length (AppendRune r)).
Proof.
  unfold validRune, MaxRune. intros [Hr Hs].
  unfold AppendRune, MaxRune.
  assert (Hstep : forall (c : bool) (x y z : rune * nat),
             c = false -> y = z -> (if c then x else y) = z)
    by (intros c x y z -> ->; reflexivity).
  destruct ((0 <=? r) && (r <=? 0x7F)) eqn:C1.
  { cbn [app DecodeRune length]. rewrite byteZ_byteA by lia.
    destruct (r <? 128) eqn:?; [reflexivity | lia]. }
  destruct ((0 <=? r) && (r <=? 0x7FF)) eqn:C2.
  { cbn [app DecodeRune length].
    rewrite byteZ_byteA by dlia. apply Hstep; [dlia|].
    rewrite first_two by dlia.
    cbn [length Nat.ltb Nat.leb]; unfold at_; cbn [nth]. rewrite byteZ_byteA by dlia.
    apply Hstep; [dlia|]. f_equal. dlia. }
  destruct ((r <? 0) || (1114111 <? r) || (55296 <=? r) && (r <=? 57343)) eqn:C3;
    [lia|].
  destruct (r <=? 0xFFFF) eqn:C4.
  { cbn [app DecodeRune length].
    rewrite byteZ_byteA by dlia. apply Hstep; [dlia|].
    rewrite first_three by dlia.
    cbn [length Nat.ltb Nat.leb]; unfold at_; cbn [nth]. rewrite !byteZ_byteA by dlia.
    unfold notcont.
    apply Hstep; [destruct (_ =? 0xE0) eqn:?, (_ =? 0xED) eqn:?; dlia|].
    apply Hstep; [dlia|]. f_equal. dlia. }
  cbn [app DecodeRune length].
  rewrite byteZ_byteA by dlia. apply Hstep; [dlia|].
  rewrite first_four by dlia.
  cbn [length Nat.ltb Nat.leb]; unfold at_; cbn [nth]. rewrite !byteZ_byteA by dlia.
  unfold notcont.
  apply Hstep; [destruct (_ =? 0xF0) eqn:?, (_ =? 0xF4) eqn:?; dlia|].
  apply Hstep; [dlia|]. apply Hstep; [dlia|]. f_equal. dlia.
Qed.

(** ** The range loop, rune by rune *)

Lemma rangeFrom_skip s : forall i skip,
  rangeFrom i skip s = rangeFrom (i + skip) 0 (drop skip s).
Proof.
  induction s as [|a s IH]; intros i skip.
  - destruct skip; reflexivity.
  - destruct skip as [|k].
    + rewrite Nat.add_0_r. reflexivity.
    + cbn [rangeFrom drop]. rewrite IH. f_equal. lia.
Qed.

Lemma rangeFrom_cons i a s r w :
  DecodeRune (a :: s) = (r, w) ->
  rangeFrom i 0 (a :: s) = (i, r) :: rangeFrom (i + w) 0 (drop w (a :: s)).
Proof.
  intros H. pose proof (DecodeRune_spec _ _ _ _ H) as [Hw _].
  cbn [rangeFrom]. rewrite H. f_equal.
  rewrite rangeFrom_skip. destruct w as [|w]; [lia|].
  cbn [drop]. rewrite Nat.sub_succ, Nat.sub_0_r. f_equal. lia.
Qed.

(** The characters of [h], as the range loop reads them: a byte that does
    not start a valid sequence is read as [RuneError]. *)
Definition runesOf (h : list ascii) : list rune := map snd (rangeString h).

Definition encodeRunes (rs : list rune) : list ascii := flat_map AppendRune rs.

Lemma runes_rangeFrom_index s : forall i j skip,
  map snd (rangeFrom i skip s) = map snd (rangeFrom j skip s).
Proof.
  induction s as [|a s IH]; intros i j skip; [reflexivity|].
  cbn [rangeFrom]. destruct skip as [|k]; [|apply IH].
  destruct (DecodeRune (a :: s)) as [r w]. cbn [map snd]. f_equal. apply IH.
Qed.

Lemma runesOf_cons a s r w :
  DecodeRune (a :: s) = (r, w) ->
  runesOf (a :: s) = r :: runesOf (drop w (a :: s)).
Proof.
  intros H. unfold runesOf, rangeString.
  rewrite (rangeFrom_cons _ _ _ _ _ H). cbn [map snd]. f_equal.
  apply runes_rangeFrom_index.
Qed.

(** Induction on a string, one rune at a time. *)
Lemma rune_ind (P : list ascii -> Prop) :
  P [] ->
  (forall a s r w, DecodeRune (a :: s) = (r, w) ->
                   P (drop w (a :: s)) -> P (a :: s)) ->
  forall h, P h.
Proof.
  intros Hnil Hcons h.
  remember (length h) as n eqn:Hn.
  revert h Hn. induction n as [n IH] using lt_wf_ind. intros h Hn.
  destruct h as [|a s]; [exact Hnil|].
  destruct (DecodeRune (a :: s)) as [r w] eqn:Hd.
  apply (Hcons a s r w Hd).
  pose proof (DecodeRune_spec _ _ _ _ Hd) as [Hw _].
  apply (IH (length (drop w (a :: s)))); [|reflexivity].
  rewrite length_drop. subst n. lia.
Qed.

Lemma runesOf_valid h : Forall validRune (runesOf h).
Proof.
  induction h as [|a s r w Hd IH] using rune_ind; [constructor|].
  rewrite (runesOf_cons _ _ _ _ Hd). constructor; [|exact IH].
  apply (DecodeRune_spec _ _ _ _ Hd).
Qed.

Lemma runesOf_encodeRunes rs :
  Forall validRune rs -> runesOf (encodeRunes rs) = rs.
Proof.
  induction 1 as [|r rs Hr _ IH]; [reflexivity|].
  cbn [encodeRunes flat_map]. fold (encodeRunes rs).
  pose proof (DecodeRune_AppendRune r (encodeRunes rs) Hr) as Hd.
  pose proof (AppendRune_length r) as Hl.
  destruct (AppendRune r) as [|a l] eqn:E; [cbn [length] in Hl; lia|].
  cbn [app] in *. rewrite (runesOf_cons _ _ _ _ Hd). f_equal.
  change (a :: l ++ encodeRunes rs) with ((a :: l) ++ encodeRunes rs).
  rewrite drop_app_length. exact IH.
Qed.

(** The loop of [removeHTMLWhiteSpace] on runes: [afterSP] says that the
    byte before the rune is a space. *)
Definition isText (r : rune) : bool :=
  negb (r =? CR) && negb (r =? LF) && negb (r =? TAB).

Fixpoint keepRunes (afterSP : bool) (rs : list rune) : list rune :=
  match rs with
  | [] => []
  | r :: t =>
    if isText r && (negb (r =? SP) || negb afterSP)
    then r :: keepRunes (r =? SP) t
    else keepRunes (r =? SP) t
  end.

Lemma writeAt_rangeFrom h : forall pre s,
  h = pre ++ s ->
  flat_map (fun ir => writeAt h (fst ir) (snd ir)) (rangeFrom (length pre) 0 s)
  = encodeRunes (keepRunes (negb (length pre =? 0)%nat
                            && (at_ h (length pre - 1) =? SP))
                           (map snd (rangeFrom (length pre) 0 s))).
Proof.
  intros pre s. revert pre.
  induction s as [|a s r w Hd IH] using rune_ind; intros pre Hh;
    [reflexivity|].
  rewrite (rangeFrom_cons _ _ _ _ _ Hd).
  pose proof (DecodeRune_spec _ _ _ _ Hd) as (Hw & _ & Hlo & Hhi).
  specialize (IH (pre ++ take w (a :: s))).
  rewrite length_app, length_take, Nat.min_l in IH by lia.
  rewrite <- app_assoc, take_drop in IH. specialize (IH Hh).
  assert (Hprev : (negb (length pre + w =? 0)%nat
                   && (at_ h (length pre + w - 1) =? SP)) = (r =? SP)).
  { replace (length pre + w =? 0)%nat with false by lia. cbn [negb andb].
    unfold at_ in *. rewrite Hh, app_nth2 by lia.
    replace (length pre + w - 1 - length pre)%nat with (w - 1)%nat by lia.
    destruct (Z_lt_le_dec r 0x80) as [Hr|Hr].
    - destruct (Hlo Hr) as [-> ->]. reflexivity.
    - specialize (Hhi Hr). unfold SP. lia. }
  rewrite Hprev in IH.
  cbn [flat_map map fst snd keepRunes]. rewrite IH.
  unfold writeAt, isText.
  destruct (negb (r =? CR) && negb (r =? LF) && negb (r =? TAB));
    [|reflexivity].
  cbn [andb].
  replace ((length pre =? 0)%nat || negb (r =? SP)
           || negb (at_ h (length pre - 1) =? SP))
    with (negb (r =? SP)
          || negb (negb (length pre =? 0)%nat && (at_ h (length pre - 1) =? SP)))
    by (destruct (length pre =? 0)%nat, (r =? SP), (_ =? SP); reflexivity).
  destruct (negb (r =? SP) || _); reflexivity.
Qed.

Lemma removeHTMLWhiteSpaceBytes_runes h :
  removeHTMLWhiteSpaceBytes h = encodeRunes (keepRunes false (runesOf h)).
Proof.
  unfold removeHTMLWhiteSpaceBytes, rangeString, runesOf, rangeString.
  apply (writeAt_rangeFrom h [] h). reflexivity.
Qed.

(** ** The normalizer on runes *)

Lemma keepRunes_isText rs : forall p, Forall (fun r => isText r = true) (keepRunes p rs).
Proof.
  induction rs as [|r t IH]; intros p; cbn [keepRunes]; [constructor|].
  destruct (isText r) eqn:Et; cbn [andb]; [|apply IH].
  destruct (negb (r =? SP) || negb p); [|apply IH].
  constructor; [exact Et | apply IH].
Qed.

Lemma keepRunes_valid rs : forall p,
  Forall validRune rs -> Forall validRune (keepRunes p rs).
Proof.
  induction rs as [|r t IH]; intros p H; cbn [keepRunes]; [constructor|].
  inversion H; subst.
  destruct (isText r && (negb (r =? SP) || negb p));
    [constructor; [assumption|] |]; apply IH; assumption.
Qed.

(** No control character, and no space right after a space ([afterSP]: the
    list itself comes right after a space). *)
Fixpoint squeezed (afterSP : bool) (rs : list rune) : Prop :=
  match rs with
  | [] => True
  | r :: t =>
    isText r = true /\ (r =? SP) && afterSP = false /\ squeezed (r =? SP) t
  end.

Lemma keepRunes_squeezed_id rs : forall p, squeezed p rs -> keepRunes p rs = rs.
Proof.
  induction rs as [|r t IH]; intros p; cbn [squeezed keepRunes];
    [reflexivity|].
  intros (Et & Hsp & Ht). rewrite Et. cbn [andb].
  replace (negb (r =? SP) || negb p) with true
    by (destruct (r =? SP), p; cbn in *; congruence).
  f_equal. apply IH, Ht.
Qed.

Lemma keepRunes_squeezed rs : forall p,
  Forall (fun r => isText r = true) rs -> squeezed p (keepRunes p rs).
Proof.
  induction rs as [|r t IH]; intros p H; cbn [keepRunes]; [exact I|].
  inversion H as [|? ? Et Ht]; subst. rewrite Et. cbn [andb].
  destruct (r =? SP) eqn:Es, p; cbn [negb orb squeezed];
    rewrite ?Es; cbn [andb]; auto.
Qed.

Lemma keepRunes_twice_text rs :
  Forall (fun r => isText r = true) rs ->
  keepRunes false (keepRunes false rs) = keepRunes false rs.
Proof.
  intros H. apply keepRunes_squeezed_id, keepRunes_squeezed, H.
Qed.

Lemma keepRunes_thrice rs :
  keepRunes false (keepRunes false (keepRunes false rs))
  = keepRunes false (keepRunes false rs).
Proof. apply keepRunes_twice_text, keepRunes_isText. Qed.

(** The spec's words, on characters: a control character (CR, LF, TAB)
    collapses to nothing, a maximal run of spaces to one space, and every
    other character is kept. *)
Inductive Normalized : list rune -> list rune -> Prop :=
| Norm_nil : Normalized [] []
| Norm_control r t o :
    isText r = false -> Normalized t o -> Normalized (r :: t) o
| Norm_spaces n t o :
    head t <> Some SP -> Normalized t o ->
    Normalized (SP :: repeat SP n ++ t) (SP :: o)
| Norm_other r t o :
    isText r = true -> r <> SP -> Normalized t o ->
    Normalized (r :: t) (r :: o).

Lemma keepRunes_run n t : keepRunes true (repeat SP n ++ t) = keepRunes true t.
Proof.
  induction n as [|n IH]; [reflexivity|].
  cbn [repeat app keepRunes]. exact IH.
Qed.

Lemma keepRunes_flag t p : head t <> Some SP -> keepRunes p t = keepRunes false t.
Proof.
  destruct t as [|r t]; [reflexivity|]. cbn [head keepRunes]. intros H.
  destruct (r =? SP) eqn:E; [|destruct p; reflexivity].
  exfalso. apply H. f_equal. lia.
Qed.

Lemma keepRunes_control r t p :
  isText r = false -> keepRunes p (r :: t) = keepRunes false t.
Proof.
  intros Hc. cbn [keepRunes]. rewrite Hc. cbn [andb].
  destruct (r =? SP) eqn:E; [|reflexivity].
  assert (r = SP) as -> by lia. discriminate Hc.
Qed.

Lemma keepRunes_other r t p :
  isText r = true -> r <> SP -> keepRunes p (r :: t) = r :: keepRunes false t.
Proof.
  intros Ht Hr. cbn [keepRunes]. rewrite Ht.
  replace (r =? SP) with false by lia. reflexivity.
Qed.

Lemma keepRunes_spaces n t :
  head t <> Some SP ->
  keepRunes false (SP :: repeat SP n ++ t) = SP :: keepRunes false t.
Proof.
  intros Hh. cbn [keepRunes].
  change (isText SP && (negb (SP =? SP) || negb false)) with true.
  change (SP =? SP) with true. cbv iota.
  now rewrite keepRunes_run, (keepRunes_flag t true Hh).
Qed.

Lemma Normalized_keepRunes rs o : Normalized rs o -> o = keepRunes false rs.
Proof.
  induction 1 as [|r t o Hc _ IH|n t o Hh _ IH|r t o Ht Hr _ IH].
  - reflexivity.
  - now rewrite keepRunes_control.
  - rewrite keepRunes_spaces by assumption. now rewrite IH.
  - rewrite keepRunes_other by assumption. now rewrite IH.
Qed.



(** ** The normalizer on strings *)

Definition chars (h : string) : list rune := runesOf (list_ascii_of_string h).

Definition textByte (a : ascii) : bool := isText (byteZ a).

(** [h] holds no carriage return, line feed or tab. *)
Definition noControl (h : string) : Prop :=
  forallb textByte (list_ascii_of_string h) = true.

Lemma removeHTMLWhiteSpace_runes h :
  removeHTMLWhiteSpace h
  = string_of_list_ascii (encodeRunes (keepRunes false (chars h))).
Proof.
  unfold removeHTMLWhiteSpace, chars.
  now rewrite removeHTMLWhiteSpaceBytes_runes.
Qed.

Lemma chars_removeHTMLWhiteSpace h :
  chars (removeHTMLWhiteSpace h) = keepRunes false (chars h).
Proof.
  rewrite removeHTMLWhiteSpace_runes. unfold chars at 1.
  rewrite list_ascii_of_string_of_list_ascii.
  apply runesOf_encodeRunes, keepRunes_valid, runesOf_valid.
Qed.

Lemma runesOf_text h :
  forallb textByte h = true -> Forall (fun r => isText r = true) (runesOf h).
Proof.
  induction h as [|a s r w Hd IH] using rune_ind; intros H; [constructor|].
  rewrite (runesOf_cons _ _ _ _ Hd).
  pose proof (DecodeRune_spec _ _ _ _ Hd) as (Hw & _ & Hlo & _).
  constructor.
  - destruct (Z_lt_le_dec r 0x80) as [Hr|Hr].
    + destruct (Hlo Hr) as [_ ->]. cbn [forallb] in H.
      apply andb_prop in H. apply H.
    + unfold isText, CR, LF, TAB. lia.
  - apply IH. rewrite forallb_forall in *. intros x Hx. apply H.
    rewrite <- (take_drop w (a :: s)). apply in_or_app. now right.
Qed.

(** On a string of ASCII bytes the characters are the bytes. *)
Lemma runesOf_ascii h :
  Forall (fun a => byteZ a < 0x80) h -> runesOf h = map byteZ h.
Proof.
  induction 1 as [|a s Ha _ IH]; [reflexivity|].
  assert (Hd : DecodeRune (a :: s) = (byteZ a, 1%nat)).
  { cbn [DecodeRune]. destruct (byteZ a <? 128) eqn:E; [reflexivity | lia]. }
  rewrite (runesOf_cons _ _ _ _ Hd). change (drop 1 (a :: s)) with s.
  cbn [map]. now rewrite IH.
Qed.

Lemma removeHTMLWhiteSpace_thrice x :
  removeHTMLWhiteSpace (removeHTMLWhiteSpace (removeHTMLWhiteSpace x))
  = removeHTMLWhiteSpace (removeHTMLWhiteSpace x).
Proof.
  rewrite (removeHTMLWhiteSpace_runes (removeHTMLWhiteSpace (removeHTMLWhiteSpace x))).
  rewrite !chars_removeHTMLWhiteSpace, keepRunes_thrice.
  symmetry. rewrite (removeHTMLWhiteSpace_runes (removeHTMLWhiteSpace x)).
  now rewrite chars_removeHTMLWhiteSpace.
Qed.

Lemma Normalized_functional rs o1 o2 :
  Normalized rs o1 -> Normalized rs o2 -> o1 = o2.
Proof.
  intros H1 H2. apply Normalized_keepRunes in H1, H2. congruence.
Qed.

(** ** When a second pass changes nothing *)

(** Every byte the decoder takes for a rune of 0x80 or more is itself 0x80
    or more. *)
Lemma DecodeRune_high a s r w :
  DecodeRune (a :: s) = (r, w) ->
  0x80 <= r ->
  (w <= 4)%nat
  /\ 0x80 <= at_ (a :: s) 0
  /\ ((2 <= w)%nat -> 0x80 <= at_ (a :: s) 1)
  /\ ((3 <= w)%nat -> 0x80 <= at_ (a :: s) 2)
  /\ ((4 <= w)%nat -> 0x80 <= at_ (a :: s) 3).
Proof.
  unfold DecodeRune, notcont, RuneError.
  pose proof (byteZ_range a) as Ha.
  change (byteZ a) with (at_ (a :: s) 0) in *.
  remember (at_ (a :: s) 0) as b0 eqn:E0.
  remember (at_ (a :: s) 1) as b1 eqn:E1.
  remember (at_ (a :: s) 2) as b2 eqn:E2.
  remember (at_ (a :: s) 3) as b3 eqn:E3.
  intros H Hr.
  destruct (b0 <? 128) eqn:C0.
  { inversion H; subst. lia. }
  destruct (first b0) as [[[sz lo] hi]|] eqn:Hf.
  2:{ inversion H; subst. lia. }
  apply first_inv in Hf.
  repeat match type of H with
  | (if ?c then _ else _) = _ => destruct c eqn:?
  end; inversion H; subst; lia.
Qed.

Lemma Forall_take_at (P : Z -> Prop) (l : list ascii) : forall w,
  (w <= length l)%nat ->
  (forall i, (i < w)%nat -> P (at_ l i)) ->
  Forall (fun b => P (byteZ b)) (take w l).
Proof.
  induction l as [|a l IH]; intros w Hw H.
  - destruct w; constructor.
  - destruct w as [|w]; [constructor|]. cbn [take]. constructor.
    + apply (H 0%nat). lia.
    + apply IH; [cbn [length] in Hw; lia|].
      intros i Hi. apply (H (S i)). lia.
Qed.

Lemma DecodeRune_high_bytes a s r w :
  DecodeRune (a :: s) = (r, w) ->
  0x80 <= r ->
  Forall (fun b => 0x80 <= byteZ b) (take w (a :: s)).
Proof.
  intros Hd Hr.
  pose proof (DecodeRune_spec _ _ _ _ Hd) as (Hw & _).
  pose proof (DecodeRune_high _ _ _ _ Hd Hr) as (H4 & H0 & H1 & H2 & H3).
  apply (Forall_take_at (fun z => 0x80 <= z)); [lia|].
  intros i Hi.
  destruct i as [|[|[|[|i]]]]; [exact H0 | apply H1 | apply H2 | apply H3 |];
    lia.
Qed.

(** Reading a string for a space, then one or more control characters, then
    a space: where the reading stands. *)
Inductive gapState := Neutral | AfterSpace | AfterSpaceControl.

Definition gapStep (s : gapState) (r : rune) : option gapState :=
  if r =? SP then
    match s with
    | AfterSpaceControl => None
    | _ => Some AfterSpace
    end
  else if isText r then Some Neutral
  else
    match s with
    | Neutral => Some Neutral
    | _ => Some AfterSpaceControl
    end.

Fixpoint gapFreeFrom (s : gapState) (rs : list rune) : bool :=
  match rs with
  | [] => true
  | r :: t =>
    match gapStep s r with
    | None => false
    | Some s1 => gapFreeFrom s1 t
    end
  end.

(** No two spaces of [x] are separated by control characters (carriage
    return, line feed, tab) alone; read on the bytes of [x]. *)
Definition gapFree (x : string) : bool :=
  gapFreeFrom Neutral (map byteZ (list_ascii_of_string x)).

Lemma gapFreeFrom_high l rest : forall s,
  Forall (fun b => 0x80 <= byteZ b) l -> l <> [] ->
  gapFreeFrom s (map byteZ l ++ rest) = gapFreeFrom Neutral rest.
Proof.
  induction l as [|a l IH]; intros s H Hne; [congruence|].
  inversion H as [|? ? Ha Hl]; subst.
  cbn [map app gapFreeFrom]. unfold gapStep.
  replace (byteZ a =? SP) with false by (unfold SP; lia).
  replace (isText (byteZ a)) with true by (unfold isText, CR, LF, TAB; lia).
  destruct l as [|b l]; [reflexivity|].
  apply IH; [exact Hl | discriminate].
Qed.

(** On the runes the range loop reads, the reading gives the same. *)
Lemma gapFreeFrom_runes h : forall s,
  gapFreeFrom s (map byteZ h) = gapFreeFrom s (runesOf h).
Proof.
  induction h as [|a t r w Hd IH] using rune_ind; intros s; [reflexivity|].
  rewrite (runesOf_cons _ _ _ _ Hd).
  pose proof (DecodeRune_spec _ _ _ _ Hd) as (Hw & _ & Hlo & _).
  destruct (Z_lt_le_dec r 0x80) as [Hr|Hr].
  - destruct (Hlo Hr) as [-> ->]. change (drop 1 (a :: t)) with t in *.
    cbn [map gapFreeFrom]. destruct (gapStep s (byteZ a)); [apply IH | reflexivity].
  - rewrite <- (take_drop w (a :: t)) at 1. rewrite map_app.
    rewrite gapFreeFrom_high;
      [|apply (DecodeRune_high_bytes _ _ _ _ Hd Hr)
       |destruct w; [lia | discriminate]].
    cbn [gapFreeFrom]. unfold gapStep.
    replace (r =? SP) with false by (unfold SP; lia).
    replace (isText r) with true by (unfold isText, CR, LF, TAB; lia).
    apply IH.
Qed.

Definition afterSpaceIn (s : gapState) : bool :=
  match s with AfterSpace => true | _ => false end.

Definition afterSpaceOut (s : gapState) : bool :=
  match s with Neutral => false | _ => true end.

Lemma squeezed_keepRunes_gapFree rs : forall s,
  squeezed (afterSpaceOut s) (keepRunes (afterSpaceIn s) rs)
  <-> gapFreeFrom s rs = true.
Proof.
  induction rs as [|r t IH]; intros s; [cbn; tauto|].
  cbn [gapFreeFrom]. unfold gapStep.
  destruct (Z.eq_dec r SP) as [->|Hr].
  - change (SP =? SP) with true. cbv iota. cbn [keepRunes].
    change (isText SP) with true. change (SP =? SP) with true.
    destruct s; cbn [afterSpaceIn afterSpaceOut andb negb orb squeezed].
    + change (isText SP) with true. change (SP =? SP) with true.
      cbn [andb]. rewrite <- (IH AfterSpace). cbn [afterSpaceIn afterSpaceOut].
      tauto.
    + rewrite <- (IH AfterSpace). cbn [afterSpaceIn afterSpaceOut]. tauto.
    + change (SP =? SP) with true. cbn [andb]. split; [|discriminate].
      intros (_ & H & _). discriminate H.
  - replace (r =? SP) with false by lia.
    destruct (isText r) eqn:Et.
    + rewrite keepRunes_other by assumption. cbn [squeezed].
      replace (r =? SP) with false by lia. cbn [andb].
      rewrite <- (IH Neutral). cbn [afterSpaceIn afterSpaceOut]. tauto.
    + rewrite keepRunes_control by assumption.
      destruct s; cbn [afterSpaceOut];
        [rewrite <- (IH Neutral) | rewrite <- (IH AfterSpaceControl)
        | rewrite <- (IH AfterSpaceControl)];
        cbn [afterSpaceIn afterSpaceOut]; tauto.
Qed.

Lemma keepRunes_length rs : forall p, (length (keepRunes p rs) <= length rs)%nat.
Proof.
  induction rs as [|r t IH]; intros p; cbn [keepRunes length]; [lia|].
  specialize (IH (r =? SP)).
  destruct (isText r && (negb (r =? SP) || negb p)); cbn [length]; lia.
Qed.

(** The loop leaves a list as it is only if the list is squeezed. *)
Lemma keepRunes_id_squeezed rs : forall p, keepRunes p rs = rs -> squeezed p rs.
Proof.
  induction rs as [|r t IH]; intros p H; [exact I|].
  cbn [keepRunes] in H.
  destruct (isText r && (negb (r =? SP) || negb p)) eqn:E.
  - injection H as H. cbn [squeezed].
    apply andb_prop in E as [Et Ep]. split; [exact Et|].
    split; [destruct (r =? SP), p; cbn in *; congruence|]. apply IH, H.
  - exfalso. pose proof (keepRunes_length t (r =? SP)) as Hl.
    rewrite H in Hl. cbn [length] in Hl. lia.
Qed.

(** A space, then one or more carriage returns, line feeds or tabs and
    nothing else, then a space. *)
Definition isControl (r : rune) : Prop := r = CR \/ r = LF \/ r = TAB.

Definition hasGap (l : list rune) : Prop :=
  exists pre mid post,
    l = pre ++ SP :: mid ++ SP :: post /\ mid <> [] /\ Forall isControl mid.

(** The rest of such a pattern: control characters up to a space. *)
Definition closesGap (l : list rune) : Prop :=
  exists mid post, l = mid ++ SP :: post /\ Forall isControl mid.

Lemma isText_false r : isText r = false <-> isControl r.
Proof. unfold isText, isControl, CR, LF, TAB. lia. Qed.

Lemma SP_not_control : ~ isControl SP.
Proof. unfold isControl, SP, CR, LF, TAB. lia. Qed.

Lemma hasGap_cons r t :
  hasGap (r :: t) <-> hasGap t \/ (r = SP /\ exists c t', t = c :: t' /\ isControl c /\ closesGap t').
Proof.
  split.
  - intros (pre & mid & post & He & Hm & Hc).
    destruct pre as [|a pre]; cbn [app] in He.
    + right. injection He as -> ->. split; [reflexivity|].
      destruct mid as [|c mid]; [congruence|].
      inversion Hc; subst. exists c, (mid ++ SP :: post).
      split; [reflexivity|]. split; [assumption|]. now exists mid, post.
    + left. injection He as -> ->. now exists pre, mid, post.
  - intros [(pre & mid & post & -> & Hm & Hc)
           |(-> & c & t' & -> & Hc & mid & post & -> & Hm)].
    + now exists (r :: pre), mid, post.
    + exists [], (c :: mid), post. split; [reflexivity|].
      split; [discriminate | now constructor].
Qed.

Lemma closesGap_cons r t :
  closesGap (r :: t) <-> r = SP \/ (isControl r /\ closesGap t).
Proof.
  split.
  - intros (mid & post & He & Hc). destruct mid as [|c mid]; cbn [app] in He.
    + left. now injection He.
    + right. injection He as -> ->. inversion Hc; subst.
      split; [assumption|]. now exists mid, post.
  - intros [->|(Hc & mid & post & -> & Hm)].
    + now exists [], t.
    + exists (r :: mid), post. split; [reflexivity | now constructor].
Qed.

(** What the reading has found when it fails from a state. *)
Definition gapAhead (s : gapState) (l : list rune) : Prop :=
  match s with
  | Neutral => hasGap l
  | AfterSpace => hasGap (SP :: l)
  | AfterSpaceControl => hasGap l \/ closesGap l
  end.

Lemma gapFreeFrom_false l : forall s,
  gapFreeFrom s l = false <-> gapAhead s l.
Proof.
  induction l as [|r t IH]; intros s.
  - cbn [gapFreeFrom]. split; [discriminate|].
    assert (Hn : ~ hasGap []).
    { intros (pre & mid & post & He & _). destruct pre; discriminate He. }
    assert (Hc : ~ closesGap []).
    { intros (mid & post & He & _). destruct mid; discriminate He. }
    intros H. exfalso. destruct s; cbn [gapAhead] in H.
    + now apply Hn.
    + apply hasGap_cons in H as [H|(_ & c & t' & H & _)];
        [now apply Hn | discriminate H].
    + tauto.
  - cbn [gapFreeFrom]. unfold gapStep.
    pose proof SP_not_control as Hsp.
    destruct (Z.eq_dec r SP) as [->|Hr].
    + change (SP =? SP) with true. cbv iota.
      destruct s; cbn [gapAhead]; rewrite ?IH; cbn [gapAhead].
      * tauto.
      * rewrite (hasGap_cons SP (SP :: t)). split; [tauto|].
        intros [H|(_ & c & t' & H & Hc & _)]; [exact H|].
        injection H as <- _. contradiction.
      * split; [intros _|reflexivity]. right. apply closesGap_cons. now left.
    + replace (r =? SP) with false by lia.
      destruct (isText r) eqn:Et.
      * assert (Hc : ~ isControl r)
          by (rewrite <- isText_false; congruence).
        rewrite IH. cbn [gapAhead].
        destruct s; cbn [gapAhead];
          rewrite ?(hasGap_cons SP), ?(hasGap_cons r), ?closesGap_cons.
        -- tauto.
        -- split; [tauto|].
           intros [[H|[H _]]|(_ & c & t' & H & Hc' & _)];
             [exact H | contradiction |].
           injection H as <- _. contradiction.
        -- tauto.
      * apply isText_false in Et.
        destruct s; rewrite IH; cbn [gapAhead];
          rewrite ?(hasGap_cons SP), ?(hasGap_cons r), ?closesGap_cons.
        -- tauto.
        -- split.
           ++ intros [H|H]; [tauto|]. right. split; [reflexivity|].
              now exists r, t.
           ++ intros [[H|[H _]]|(_ & c & t' & H & _ & Hc')];
                [tauto | contradiction |].
              injection H as <- <-. tauto.
        -- tauto.
Qed.

(** [gapFree] decides the pattern. *)
Lemma gapFree_spec (x : string) :
  gapFree x = true <-> ~ hasGap (map byteZ (list_ascii_of_string x)).
Proof.
  unfold gapFree.
  rewrite <- (gapFreeFrom_false (map byteZ (list_ascii_of_string x)) Neutral).
  destruct (gapFreeFrom Neutral _); split; congruence.
Qed.

Definition twoPassInput : string := "a " +:+ nl +:+ " b".
Definition indentedHTML : string :=
  "<ul>" +:+ nl +:+ tab +:+ "<li>a  b</li>" +:+ nl +:+ "  <li>c</li> " +:+ nl +:+ "</ul>".

(** C8, as the spec states it, fails: on ["a \n b"] the first pass leaves the
    two spaces that the removed line feed separated, and the second pass
    removes one of them. *)
Lemma removeHTMLWhiteSpace_not_idempotent :
  ~ (forall x : string,
       removeHTMLWhiteSpace (removeHTMLWhiteSpace x) = removeHTMLWhiteSpace x).
Proof.
  intros H. specialize (H twoPassInput). vm_compute in H. discriminate H.
Qed.

(** C8, amended: a second pass of the normalizer changes nothing exactly
    when the bytes of the input hold no space followed by one or more
    carriage returns, line feeds or tabs, and nothing else, followed by a
    space. *)
Theorem removeHTMLWhiteSpace_idempotent_iff (x : string) :
  removeHTMLWhiteSpace (removeHTMLWhiteSpace x) = removeHTMLWhiteSpace x
  <-> ~ hasGap (map byteZ (list_ascii_of_string x)).
Proof.
  rewrite <- gapFree_spec.
  unfold gapFree. rewrite gapFreeFrom_runes. fold (chars x).
  rewrite <- (squeezed_keepRunes_gapFree (chars x) Neutral).
  cbn [afterSpaceIn afterSpaceOut]. split.
  - intros H. apply keepRunes_id_squeezed.
    rewrite <- !chars_removeHTMLWhiteSpace. now rewrite H.
  - intros H.
    rewrite (removeHTMLWhiteSpace_runes (removeHTMLWhiteSpace x)).
    rewrite chars_removeHTMLWhiteSpace, (keepRunes_squeezed_id _ _ H).
    symmetry. apply removeHTMLWhiteSpace_runes.
Qed.

Lemma removeHTMLWhiteSpace_idempotent_iff_witness :
  ~ hasGap (map byteZ (list_ascii_of_string indentedHTML))
  /\ removeHTMLWhiteSpace (removeHTMLWhiteSpace indentedHTML)
     = removeHTMLWhiteSpace indentedHTML
  /\ removeHTMLWhiteSpace indentedHTML = "<ul><li>a b</li> <li>c</li> </ul>"%string
  /\ hasGap (map byteZ (list_ascii_of_string twoPassInput)).
Proof.
  assert (H : ~ hasGap (map byteZ (list_ascii_of_string indentedHTML)))
    by (apply gapFree_spec; vm_compute; reflexivity).
  split; [exact H|].
  split; [apply (removeHTMLWhiteSpace_idempotent_iff indentedHTML); exact H|].
  split; [vm_compute; reflexivity|].
  exists [97], [LF], [98]. split; [vm_compute; reflexivity|].
  split; [discriminate|].
  constructor; [right; left; reflexivity | constructor].
Defined.

(** In particular a second pass changes nothing on an input that holds no
    carriage return, line feed or tab. *)
Lemma removeHTMLWhiteSpace_idempotent_no_control (x : string) :
  noControl x ->
  removeHTMLWhiteSpace (removeHTMLWhiteSpace x) = removeHTMLWhiteSpace x.
Proof.
  intros Hx.
  rewrite (removeHTMLWhiteSpace_runes (removeHTMLWhiteSpace x)).
  rewrite chars_removeHTMLWhiteSpace, keepRunes_twice_text.
  - symmetry. apply removeHTMLWhiteSpace_runes.
  - apply runesOf_text, Hx.
Qed.

Lemma removeHTMLWhiteSpace_idempotent_no_control_witness :
  noControl "a   b    c"
  /\ removeHTMLWhiteSpace (removeHTMLWhiteSpace "a   b    c")
     = removeHTMLWhiteSpace "a   b    c".
Proof.
  split.
  - vm_compute. reflexivity.
  - apply (removeHTMLWhiteSpace_idempotent_no_control "a   b    c").
    vm_compute. reflexivity.
Defined.



(** ** HTTP responses *)

Definition error := string.

(** [http.ResponseWriter]: the header map, the status line once it is
    written, the body written so far, and the error every [Write] returns
    when the connection is broken. Only [Header().Set] is used on the header
    map, so it holds one value per key. *)
Record ResponseWriter := {
  rwHeader : gmap string string;
  rwStatus : option Z;
  rwBody : string;
  rwWriteErr : option error;
}.

Definition newResponseWriter : ResponseWriter :=
  {| rwHeader := ∅; rwStatus := None; rwBody := ""; rwWriteErr := None |}.

Definition StatusOK : Z := 200.
Definition StatusUnauthorized : Z := 401.
Definition StatusUnprocessableEntity : Z := 422.
Definition StatusInternalServerError : Z := 500.

(** [w.Header().Set(k, v)] *)
Definition HeaderSet (k v : string) (w : ResponseWriter) : ResponseWriter :=
  {| rwHeader := <[k := v]> (rwHeader w); rwStatus := rwStatus w;
     rwBody := rwBody w; rwWriteErr := rwWriteErr w |}.

(** [w.WriteHeader(code)]: a second call changes nothing. *)
Definition WriteHeader (code : Z) (w : ResponseWriter) : ResponseWriter :=
  match rwStatus w with
  | Some _ => w
  | None => {| rwHeader := rwHeader w; rwStatus := Some code;
               rwBody := rwBody w; rwWriteErr := rwWriteErr w |}
  end.

(** [w.Write(b)]: writes the status line with 200 when none was written,
    then the bytes. *)
Definition Write (b : string) (w : ResponseWriter) : ResponseWriter * option error :=
  let w1 := WriteHeader StatusOK w in
  match rwWriteErr w1 with
  | Some e => (w1, Some e)
  | None => ({| rwHeader := rwHeader w1; rwStatus := rwStatus w1;
                rwBody := rwBody w1 +:+ b; rwWriteErr := None |}, None)
  end.

(** [http.Error(w, error, code)]: two headers, the status, and the message
    followed by a line feed ([fmt.Fprintln]), whose write error is
    dropped.  This is [http.Error] as it was when the package was written;
    from Go 1.23 on it also deletes the [Content-Length] header, which
    nothing below reads after an error. *)
Definition http_Error (msg : string) (code : Z) (w : ResponseWriter) : ResponseWriter :=
  let w1 := HeaderSet "Content-Type" "text/plain; charset=utf-8" w in
  let w2 := HeaderSet "X-Content-Type-Options" "nosniff" w1 in
  let w3 := WriteHeader code w2 in
  fst (Write (msg +:+ nl) w3).

(** ** Configuration and the state a handler works on *)

(** Modelled from the spec: the [Configuration] struct is declared outside
    the files at hand; these are the fields the handlers read.  [Timeout] is
    a [time.Duration], a signed 64-bit count. *)
Record Configuration := {
  Debug : bool;
  Scheme : string;
  Network : string;
  AccessKey : string;
  Timeout : Z;
}.

Record URL := {
  uScheme : string;
  uHost : string;
  uPath : string;
  uRawQuery : string;
}.

(** What a handler does to the world outside, in order: the requests
    [http.Get] sends, the discovery queries to the storage network, and the
    payloads handed to the creator for signing. *)
Inductive Event :=
| EvGet (u : URL)
| EvGetAccessNode (network : string)
| EvSign (host : string) (payload : list ascii).

Record State := {
  accessNode : string;      (* s.accessNode, shared by all requests *)
  events : list Event;      (* oldest first *)
  ticks : nat;              (* readings of time.Now so far *)
  uuids : nat;              (* identifiers drawn from uuid.New so far *)
  console : list string;    (* lines written by println *)
  resp : ResponseWriter;    (* w *)
}.

Definition setResp (w : ResponseWriter) (st : State) : State :=
  {| accessNode := accessNode st; events := events st; ticks := ticks st;
     uuids := uuids st; console := console st; resp := w |}.

Definition println (line : string) (st : State) : State :=
  {| accessNode := accessNode st; events := events st; ticks := ticks st;
     uuids := uuids st; console := console st ++ [line]; resp := resp st |}.

Definition emit (e : Event) (st : State) : State :=
  {| accessNode := accessNode st; events := events st ++ [e];
     ticks := ticks st; uuids := uuids st; console := console st;
     resp := resp st |}.

Definition setAccessNode (an : string) (st : State) : State :=
  {| accessNode := an; events := events st; ticks := ticks st;
     uuids := uuids st; console := console st; resp := resp st |}.

Definition tick (st : State) : State :=
  {| accessNode := accessNode st; events := events st; ticks := S (ticks st);
     uuids := uuids st; console := console st; resp := resp st |}.

Definition drawUUID (st : State) : State :=
  {| accessNode := accessNode st; events := events st; ticks := ticks st;
     uuids := S (uuids st); console := console st; resp := resp st |}.

(** A request as the server hands it to a handler: nothing written yet. *)
Definition initState (an : string) : State :=
  {| accessNode := an; events := []; ticks := 0%nat; uuids := 0%nat;
     console := []; resp := newResponseWriter |}.

(** ** The error helpers *)

Definition returnAPIError (c : Configuration) (err : error) (code : Z)
    (st : State) : State :=
  let w1 := HeaderSet "Access-Control-Allow-Origin" "*" (resp st) in
  let w2 := HeaderSet "Cache-Control" "no-cache" w1 in
  let w3 := HeaderSet "Content-Type" "text/plain; charset=utf-8" w2 in
  let st1 := setResp (http_Error err code w3) st in
  if Debug c then println err st1 else st1.

Definition returnRequestError (c : Configuration) (err : error) (code : Z)
    (st : State) : State :=
  let w1 := HeaderSet "Cache-Control" "no-cache" (resp st) in
  let w2 := HeaderSet "Content-Type" "text/plain; charset=utf-8" w1 in
  let st1 :=
    if Debug c then setResp (http_Error err code w2) st
    else setResp (http_Error "" code w2) st in
  if Debug c then println err st1 else st1.

Definition returnServerError (c : Configuration) (err : error)
    (st : State) : State :=
  let w1 := HeaderSet "Cache-Control" "no-cache" (resp st) in
  let st1 :=
    if Debug c then setResp (http_Error err StatusInternalServerError w1) st
    else setResp (http_Error "" StatusInternalServerError w1) st in
  if Debug c then println err st1 else st1.

Definition production : Configuration :=
  {| Debug := false; Scheme := "https"; Network := "swan";
     AccessKey := "key"; Timeout := 60 |}.

(** The three helpers on a response nothing was written to: [returnAPIError]
    writes the error text (and the line feed of [http.Error]) whatever the
    mode; [returnRequestError] and [returnServerError] write it in debug mode
    only, and otherwise nothing but that line feed.  All three print the
    error on the console in debug mode only. *)
Lemma error_body_by_helper (c : Configuration) (err : error) (code : Z) (an : string) :
  let api := returnAPIError c err code (initState an) in
  let req := returnRequestError c err code (initState an) in
  let srv := returnServerError c err (initState an) in
  rwBody (resp api) = err +:+ nl
  /\ rwBody (resp req) = (if Debug c then err else "") +:+ nl
  /\ rwBody (resp srv) = (if Debug c then err else "") +:+ nl
  /\ console api = (if Debug c then [err] else [])
  /\ console req = (if Debug c then [err] else [])
  /\ console srv = (if Debug c then [err] else []).
Proof.
  unfold returnAPIError, returnRequestError, returnServerError.
  destruct (Debug c); cbn; repeat split; reflexivity.
Qed.

(** ** Query parameters: [url.Values] *)

(** [url.Values] is [map[string][]string]. *)
Abbreviation Values := (gmap string (list string)).

(** [q.Set(k, v)] replaces whatever [k] held by the single value [v]. *)
Definition Values_Set (k v : string) (q : Values) : Values := <[k := [v]]> q.

(** [q.Get(k)]: the first value of [k], or the empty string. *)
Definition Values_Get (k : string) (q : Values) : string :=
  match q !! k with
  | Some (v :: _) => v
  | _ => ""
  end.

(** [shouldEscape(c, encodeQueryComponent)] negated: letters, digits and
    [-_.~] are the only bytes written as they are. *)
Definition unreserved (a : ascii) : bool :=
  let c := byteZ a in
  ((97 <=? c) && (c <=? 122)) || ((65 <=? c) && (c <=? 90))
  || ((48 <=? c) && (c <=? 57))
  || (c =? 45) || (c =? 95) || (c =? 46) || (c =? 126).

Definition upperhex (n : Z) : ascii :=
  nth (Z.to_nat n) (list_ascii_of_string "0123456789ABCDEF") zero.

(** [url.QueryEscape] *)
Fixpoint QueryEscape (s : string) : string :=
  match s with
  | EmptyString => EmptyString
  | String a t =>
    if unreserved a then String a (QueryEscape t)
    else if byteZ a =? 32 then String "+" (QueryEscape t)
    else String "%" (String (upperhex (byteZ a / 16))
                       (String (upperhex (byteZ a mod 16)) (QueryEscape t)))
  end.

(** The keys in the order of [sort.Strings]. *)
Definition sortedKeys (q : Values) : list string :=
  merge_sort String.le (map fst (map_to_list q)).

(** The [key=value] pieces [Encode] writes, in order. *)
Definition encodeParams (q : Values) : list string :=
  flat_map (fun k =>
              let keyEscaped := QueryEscape k in
              map (fun v => keyEscaped +:+ "=" +:+ QueryEscape v)
                  (default [] (q !! k)))
           (sortedKeys q).

(** [q.Encode()] *)
Definition Values_Encode (q : Values) : string := String.concat "&" (encodeParams q).

Example Encode_example :
  Values_Encode (Values_Set "table" "swan"
                   (<["b" := ["x y"; "1&2"]]> (<["table" := ["foo"; "bar"]]> (<["a=" := [""]]> ∅))))
  = "a%3D=&b=x+y&b=1%262&table=swan"%string.
Proof. vm_compute. reflexivity. Qed.

(** ** Requests, responses and the collaborators outside this slice *)

Record Request := {
  Host : string;
  Form : Values;                (* r.Form once r.ParseForm() has run *)
  ParseFormErr : option error;  (* what r.ParseForm() returns *)
}.

(** [http.Response]: the status and what [ioutil.ReadAll(res.Body)] gives. *)
Record Response := {
  StatusCode : Z;
  Body : string + error;
}.

(** Modelled from the spec: [swift.Results] and [swift.Pair] are declared
    outside the files at hand.  A pair has a key, a value and an expiry, and
    [results.Values] holds pointers to the pairs, which the handler changes
    in place. *)
Record Pair := {
  Key : string;
  Value : string;
  Expires : Z;   (* time.Time: nanoseconds since the epoch, UTC *)
}.

(** Everything the handlers call that lives outside the files at hand: the
    access check, the URL and JSON functions of the Go library, the HTTP
    transport, the storage network ([swift]), the creator registry
    ([owid]), the clock and the identifier source. *)
Record Env := {
  (** Modelled from the spec: [services.getAccessAllowed] is declared
      outside the files at hand; the AccessGate returns allow or deny, does
      not touch the request or the response and makes no outbound call. *)
  getAccessAllowed : Request -> bool;
  (** Modelled from the spec: [validateCommon] is declared outside the files
      at hand; it may write an error response to [w] and change [q], and it
      signals the caller whether to go on. *)
  validateCommon : Request -> Values -> ResponseWriter -> bool * Values * ResponseWriter;
  url_Parse : string -> URL + error;
  url_ParseQuery : string -> Values * option error;
  URL_String : URL -> string;
  http_Get : string -> Response + error;
  GetAccessNode : string -> string * option error;
  Creator : Type;
  OWID : Type;
  GetCreator : string -> option Creator * option error;
  CreateOWID : Creator -> list ascii -> OWID;
  Sign : Creator -> OWID -> OWID * option error;
  AsBase64 : OWID -> string * option error;
  DecodeResults : string -> list Pair + error;
  json_Marshal : list Pair -> string + error;
  now : nat -> Z;               (* the n-th reading of time.Now().UTC() *)
  uuid_New : nat -> string;     (* the n-th uuid.New().String() *)
  (** [t.AddDate(0, 3, 0).Format("2006-01-02")] *)
  dateInThreeMonths : Z -> string;
}.

Definition newResponseError (url : string) (res : Response) : error :=
  match Body res with
  | inr err => err
  | inl body =>
    "API call '" +:+ url +:+ "' returned '" +:+ pretty (StatusCode res)
      +:+ "' and '" +:+ body +:+ "'"
  end.

(** ** The storage-operation URL composer *)

Definition noAccessNodeError (c : Configuration) : error :=
  "An access node has not been created for the '" +:+ Network c
    +:+ "' network. Use http[s]://[domain]/swift/register to start the network.".

Definition isNil {A} (o : option A) : bool :=
  match o with None => true | Some _ => false end.

(** The first block of [createStorageOperationURL]: when no access node is
    cached, ask the storage network for one; the error to return, if any. *)
Definition checkAccessNode (E : Env) (c : Configuration) (st : State)
  : option error * State :=
  if String.eqb (accessNode st) "" then
    let '(an, err) := GetAccessNode E (Network c) in
    let st1 := emit (EvGetAccessNode (Network c)) st in
    if negb (isNil err) && String.eqb an ""
    then (Some (noAccessNodeError c), st1)
    else (None, setAccessNode an st1)
  else (None, st).

(** The rest of [createStorageOperationURL]: build the URL, let [fn] add its
    parameters, set the table, and get the first storage URL from the access
    node. *)
Definition requestStorageOperation (E : Env) (c : Configuration)
    (q : Values) (fn : Values -> State -> Values * State) (st1 : State)
  : (string * option error) * Values * State :=
  let host := accessNode st1 in
  let '(q1, st2) := fn q st1 in
  let q2 := Values_Set "table" "swan" q1 in
  let u := {| uScheme := Scheme c; uHost := host;
              uPath := "/swift/api/v1/create";
              uRawQuery := Values_Encode q2 |} in
  let st3 := emit (EvGet u) st2 in
  match http_Get E (URL_String E u) with
  | inr err => (("", Some err), q2, st3)
  | inl res =>
    if negb (StatusCode res =? StatusOK)
    then (("", Some (newResponseError (URL_String E u) res)), q2, st3)
    else
      match Body res with
      | inr err => (("", Some err), q2, st3)
      | inl b => ((b, None), q2, st3)
      end
  end.

(** [q] is a pointer in the Go code: the parameters as the call leaves them
    are returned next to the result. *)
Definition createStorageOperationURL (E : Env) (c : Configuration)
    (q : Values) (fn : Values -> State -> Values * State) (st : State)
  : (string * option error) * Values * State :=
  match checkAccessNode E c st with
  | (Some e, st1) => (("", Some e), q, st1)
  | (None, st1) => requestStorageOperation E c q fn st1
  end.

(** ** The fetch handler *)

(** The function [handlerFetch] passes to [createStorageOperationURL]. *)
Definition fetchInject (E : Env) (q : Values) (st : State) : Values * State :=
  let t := dateInThreeMonths E (now E (ticks st)) in
  let st1 := tick st in
  let q1 := Values_Set ("cbid<" +:+ t) (uuid_New E (uuids st1)) q in
  let st2 := drawUUID st1 in
  let q2 := Values_Set ("email<" +:+ t) "" q1 in
  let q3 := Values_Set ("allow<" +:+ t) "" q2 in
  (q3, st2).

Definition handlerFetch (E : Env) (c : Configuration) (r : Request)
    (st : State) : State :=
  (* Check caller can access *)
  if negb (getAccessAllowed E r)
  then returnAPIError c "Not authorized" StatusUnauthorized st
  else
    (* Get the form values from the input request. *)
    match ParseFormErr r with
    | Some err => returnAPIError c err StatusInternalServerError st
    | None =>
      (* Copy the incoming parameters into the outgoing ones. *)
      match url_ParseQuery E (Values_Encode (Form r)) with
      | (_, Some err) => returnAPIError c err StatusInternalServerError st
      | (q, None) =>
        (* Validate the common parameters: the result is not looked at. *)
        let '(_, q1, w1) := validateCommon E r q (resp st) in
        let st1 := setResp w1 st in
        (* Create the URL with the parameters provided by the publisher. *)
        let '(res, _, st2) :=
          createStorageOperationURL E c q1 (fetchInject E) st1 in
        match res with
        | (_, Some err) => returnAPIError c err StatusInternalServerError st2
        | (u, None) =>
          (* Return the URL as a text string. *)
          let w2 := HeaderSet "Content-Type" "text/plain; charset=utf-8" (resp st2) in
          let w3 := HeaderSet "Cache-Control" "no-cache" w2 in
          let w4 := HeaderSet "Content-Length" (pretty (String.length u)) w3 in
          let '(w5, err) := Write u w4 in
          match err with
          | Some e => returnAPIError c e StatusInternalServerError (setResp w5 st2)
          | None => setResp w5 st2
          end
        end
      end
    end.

(** ** SHA-1, as [crypto/sha1] computes it *)

Module SHA1.

Definition w32 (x : Z) : Z := x mod 2 ^ 32.

(** [bits.RotateLeft32] *)
Definition rotl (n x : Z) : Z :=
  w32 (Z.lor (Z.shiftl x n) (Z.shiftr x (32 - n))).

Definition not32 (x : Z) : Z := Z.lxor x 0xFFFFFFFF.

Definition be32 (x : Z) : list Z :=
  [Z.land (Z.shiftr x 24) 255; Z.land (Z.shiftr x 16) 255;
   Z.land (Z.shiftr x 8) 255; Z.land x 255].

Definition be64 (x : Z) : list Z := be32 (Z.shiftr x 32) ++ be32 (w32 x).

(** The message, the byte 0x80, zeros up to 56 modulo 64, and the length
    in bits on 8 bytes. *)
Definition pad (msg : list Z) : list Z :=
  let l := Z.of_nat (length msg) in
  msg ++ [0x80] ++ repeat 0 (Z.to_nat ((55 - l) mod 64)) ++ be64 (8 * l).

Fixpoint toWords (n : nat) (p : list Z) : list Z :=
  match n with
  | O => []
  | S n' =>
    match p with
    | b0 :: b1 :: b2 :: b3 :: t =>
      Z.lor (Z.lor (Z.lor (Z.shiftl b0 24) (Z.shiftl b1 16)) (Z.shiftl b2 8)) b3
        :: toWords n' t
    | _ => []
    end
  end.

(** The message schedule, latest word first: [n] more words, each the
    rotated xor of the words 3, 8, 14 and 16 places back. *)
Fixpoint extend (n : nat) (rw : list Z) : list Z :=
  match n with
  | O => rw
  | S n' =>
    let tmp := Z.lxor (Z.lxor (Z.lxor (nth 2 rw 0) (nth 7 rw 0)) (nth 13 rw 0))
                      (nth 15 rw 0) in
    extend n' (rotl 1 tmp :: rw)
  end.

Definition schedule (block : list Z) : list Z :=
  rev (extend 64 (rev (toWords 16 block))).

Record digest := { h0 : Z; h1 : Z; h2 : Z; h3 : Z; h4 : Z }.

Definition init : digest :=
  {| h0 := 0x67452301; h1 := 0xEFCDAB89; h2 := 0x98BADCFE;
     h3 := 0x10325476; h4 := 0xC3D2E1F0 |}.

Definition f (i : nat) (b c d : Z) : Z :=
  if (i <? 20)%nat then Z.lor (Z.land b c) (Z.land (not32 b) d)
  else if (i <? 40)%nat then Z.lxor (Z.lxor b c) d
  else if (i <? 60)%nat then Z.lor (Z.land (Z.lor b c) d) (Z.land b c)
  else Z.lxor (Z.lxor b c) d.

Definition K (i : nat) : Z :=
  if (i <? 20)%nat then 0x5A827999
  else if (i <? 40)%nat then 0x6ED9EBA1
  else if (i <? 60)%nat then 0x8F1BBCDC
  else 0xCA62C1D6.

Definition round (s : digest) (iw : nat * Z) : digest :=
  let '(i, w) := iw in
  let t := w32 (rotl 5 (h0 s) + f i (h1 s) (h2 s) (h3 s) + h4 s + w + K i) in
  {| h0 := t; h1 := h0 s; h2 := rotl 30 (h1 s); h3 := h2 s; h4 := h3 s |}.

Definition block (dig : digest) (p : list Z) : digest :=
  let ws := schedule p in
  let s := fold_left round (combine (seq 0 80) ws) dig in
  {| h0 := w32 (h0 dig + h0 s); h1 := w32 (h1 dig + h1 s);
     h2 := w32 (h2 dig + h2 s); h3 := w32 (h3 dig + h3 s);
     h4 := w32 (h4 dig + h4 s) |}.

Fixpoint blocks (n : nat) (dig : digest) (p : list Z) : digest :=
  match n with
  | O => dig
  | S n' => blocks n' (block dig (take 64 p)) (drop 64 p)
  end.

(** [h := sha1.New(); h.Write(msg); h.Sum(nil)] *)
Definition sum (msg : list Z) : list Z :=
  let p := pad msg in
  let d := blocks (length p / 64) init p in
  be32 (h0 d) ++ be32 (h1 d) ++ be32 (h2 d) ++ be32 (h3 d) ++ be32 (h4 d).

(** The size of a SHA-1 checksum in bytes ([sha1.Size]). *)
Definition Size : nat := 20.

End SHA1.

Definition createSID (s : string) : list ascii :=
  map byteA (SHA1.sum (map byteZ (list_ascii_of_string s))).

Definition hex2 (a : ascii) : string :=
  String (nth (Z.to_nat (byteZ a / 16)) (list_ascii_of_string "0123456789abcdef") zero)
    (String (nth (Z.to_nat (byteZ a mod 16)) (list_ascii_of_string "0123456789abcdef") zero)
       EmptyString).

Definition hexOf (b : list ascii) : string := String.concat "" (map hex2 b).

Example createSID_abc :
  hexOf (createSID "abc") = "a9993e364706816aba3e25717850c26c9cd0d89d"%string.
Proof. vm_compute. reflexivity. Qed.

Example createSID_empty :
  hexOf (createSID "") = "da39a3ee5e6b4b0d3255bfef95601890afd80709"%string.
Proof. vm_compute. reflexivity. Qed.

Example createSID_spec_email :
  hexOf (createSID "a@b.com") = "1022b0c3a1d9a6409ae0dd2364fdcfe41f63ae22"%string.
Proof. vm_compute. reflexivity. Qed.

(* 89 bytes: two blocks *)
Example createSID_two_blocks :
  hexOf (createSID "The quick brown fox jumps over the lazy dog. The quick brown fox jumps over the lazy dog.")
  = "8eb09e076e6afa8aaaf8ff172f76cee84c791994"%string.
Proof. vm_compute. reflexivity. Qed.

(** ** The decode handler *)

Definition decrypt (E : Env) (c : Configuration) (d : string) (st : State)
  : (string + error) * State :=
  (* Combine it with the access node to decrypt the result. *)
  match url_Parse E (Scheme c +:+ "://" +:+ accessNode st) with
  | inr err => (inr err, st)
  | inl u0 =>
    let q := fst (url_ParseQuery E (uRawQuery u0)) in   (* u.Query() *)
    let q1 := Values_Set "data" d q in
    let q2 := Values_Set "accessKey" (AccessKey c) q1 in
    let u := {| uScheme := uScheme u0; uHost := uHost u0;
                uPath := "/swift/api/v1/decrypt";
                uRawQuery := Values_Encode q2 |} in
    (* Call the URL and unpack the results if they're available. *)
    let st1 := emit (EvGet u) st in
    match http_Get E (URL_String E u) with
    | inr err => (inr err, st1)
    | inl res =>
      if negb (StatusCode res =? StatusOK)
      then (inr (newResponseError (URL_String E u) res), st1)
      else (Body res, st1)
    end
  end.

Definition noCreatorError (host : string) : error :=
  "No creator for '" +:+ host +:+ "'. Use http[s]://" +:+ host
    +:+ "/owid/register to setup domain.".

Definition encodeAsOWID (E : Env) (r : Request) (v : list ascii) (st : State)
  : (string * option error) * State :=
  (* Get the creator associated with this SWAN domain. *)
  match GetCreator E (Host r) with
  | (_, Some err) => (("", Some err), st)
  | (None, None) => (("", Some (noCreatorError (Host r))), st)
  | (Some cr, None) =>
    (* Create and sign the OWID. *)
    let o := CreateOWID E cr v in
    let st1 := emit (EvSign (Host r) v) st in
    match Sign E cr o with
    | (_, Some err) => (("", Some err), st1)
    | (o1, None) => (AsBase64 E o1, st1)
    end
  end.

(** The first loop of [handlerDecodeAsJSON].  [results.Values] holds
    pointers to the pairs the decoder allocated, one per field, so the
    assignments through [p] change the pairs in place; the loop stops at the
    first error, the pair at hand already changed. *)
Fixpoint owidLoop (E : Env) (r : Request) (values : list Pair) (st : State)
  : list Pair * option error * State :=
  match values with
  | [] => ([], None, st)
  | p :: rest =>
    let '(key, ((value, err), st1)) :=
      if String.eqb (Key p) "email"
      then ("sid"%string, encodeAsOWID E r (createSID (Value p)) st)
      else (Key p, encodeAsOWID E r (list_ascii_of_string (Value p)) st) in
    let p1 := {| Key := key; Value := value; Expires := Expires p |} in
    match err with
    | Some e => (p1 :: rest, Some e, st1)
    | None =>
      let '(rest1, err1, st2) := owidLoop E r rest st1 in
      (p1 :: rest1, err1, st2)
    end
  end.

(** [time.Duration] arithmetic is on signed 64-bit integers. *)
Definition wrap64 (x : Z) : Z := (x + 2 ^ 63) mod 2 ^ 64 - 2 ^ 63.
Definition Second : Z := 1000000000.

(** [time.Second * s.config.Timeout] *)
Definition timeoutDuration (c : Configuration) : Z := wrap64 (Second * Timeout c).

(** The second loop: every pair gets the time read for it, plus the
    timeout.  [t.Add(d)] is [t + d] for the instants a clock gives. *)
Fixpoint expiryLoop (E : Env) (c : Configuration) (values : list Pair)
    (st : State) : list Pair * State :=
  match values with
  | [] => ([], st)
  | i :: rest =>
    let i1 := {| Key := Key i; Value := Value i;
                 Expires := now E (ticks st) + timeoutDuration c |} in
    let '(rest1, st1) := expiryLoop E c rest (tick st) in
    (i1 :: rest1, st1)
  end.

Definition handlerDecodeAsJSON (E : Env) (c : Configuration) (r : Request)
    (st : State) : State :=
  (* Check caller can access *)
  if negb (getAccessAllowed E r)
  then returnAPIError c "Not authorized" StatusUnauthorized st
  else
    (* Get the form values from the input request. *)
    match ParseFormErr r with
    | Some err => returnAPIError c err StatusInternalServerError st
    | None =>
      (* Decrypt the string with the access node. *)
      match decrypt E c (Values_Get "data" (Form r)) st with
      | (inr err, st1) => returnAPIError c err StatusUnprocessableEntity st1
      | (inl body, st1) =>
        (* Get the results. *)
        match DecodeResults E body with
        | inr err => returnAPIError c err StatusUnprocessableEntity st1
        | inl values =>
          (* Change the values to OWIDs. *)
          match owidLoop E r values st1 with
          | (_, Some err, st2) =>
            returnAPIError c err StatusInternalServerError st2
          | (values1, None, st2) =>
            (* Modify the expiry time. *)
            let '(values2, st3) := expiryLoop E c values1 st2 in
            (* Return the results as a JSON string. *)
            match json_Marshal E values2 with
            | inr err => returnAPIError c err StatusUnprocessableEntity st3
            | inl js =>
              let '(w1, err) := Write (js +:+ nl) (resp st3) in
              match err with
              | Some e =>
                returnAPIError c e StatusUnprocessableEntity (setResp w1 st3)
              | None => setResp w1 st3
              end
            end
          end
        end
      end
    end.

(** ** Reading a query string back *)

(** [strings.Split(s, sep)] for a separator of one byte. *)
Fixpoint splitOn (sep : Z) (s : string) : list string :=
  match s with
  | EmptyString => [EmptyString]
  | String a t =>
    if byteZ a =? sep then EmptyString :: splitOn sep t
    else
      match splitOn sep t with
      | [] => [String a EmptyString]
      | x :: xs => String a x :: xs
      end
  end.

(** The part of a [key=value] piece before the first [=]. *)
Fixpoint beforeEq (seg : string) : string :=
  match seg with
  | EmptyString => EmptyString
  | String a t => if byteZ a =? 61 then EmptyString else String a (beforeEq t)
  end.

Definition unhex (a : ascii) : option Z :=
  let c := byteZ a in
  if (48 <=? c) && (c <=? 57) then Some (c - 48)
  else if (97 <=? c) && (c <=? 102) then Some (c - 97 + 10)
  else if (65 <=? c) && (c <=? 70) then Some (c - 65 + 10)
  else None.

(** [url.QueryUnescape], with a malformed escape left as it is. *)
Fixpoint QueryUnescape (s : string) : string :=
  match s with
  | EmptyString => EmptyString
  | String a t1 =>
    if byteZ a =? 43 then String " " (QueryUnescape t1)
    else if byteZ a =? 37 then
      match t1 with
      | String h (String l t) =>
        match unhex h, unhex l with
        | Some x, Some y => String (byteA (16 * x + y)) (QueryUnescape t)
        | _, _ => String a (QueryUnescape t1)
        end
      | _ => String a (QueryUnescape t1)
      end
    else String a (QueryUnescape t1)
  end.

(** The pieces of a raw query, empty ones left out as [url.ParseQuery] does,
    and those among them whose parameter name, unescaped as the receiving
    server does, is [name]. *)
Definition queryPieces (raw : string) : list string :=
  filter (fun seg => seg <> EmptyString) (splitOn 38 raw).

Definition queryParams (name : string) (raw : string) : list string :=
  filter (fun seg => QueryUnescape (beforeEq seg) = name) (queryPieces raw).

Fixpoint hasByte (c : Z) (s : string) : bool :=
  match s with
  | EmptyString => false
  | String a t => (byteZ a =? c) || hasByte c t
  end.

Lemma upperhex_spec n :
  0 <= n < 16 ->
  unhex (upperhex n) = Some n
  /\ (48 <= byteZ (upperhex n) <= 57 \/ 65 <= byteZ (upperhex n) <= 70).
Proof.
  intros H. rewrite <- (Z2Nat.id n) by lia.
  assert (Hk : (Z.to_nat n < 16)%nat) by lia.
  revert Hk. generalize (Z.to_nat n) as k. intros k Hk.
  do 16 (destruct k as [|k];
         [vm_compute; split;
          [reflexivity
          |(left; split; discriminate) || (right; split; discriminate)]|]).
  lia.
Qed.

Lemma QueryUnescape_QueryEscape s : QueryUnescape (QueryEscape s) = s.
Proof.
  induction s as [|a t IH]; [reflexivity|].
  pose proof (byteZ_range a) as Ha.
  cbn [QueryEscape]. destruct (unreserved a) eqn:Eu.
  - cbn [QueryUnescape]. unfold unreserved in Eu.
    destruct (byteZ a =? 43) eqn:E1; [lia|].
    destruct (byteZ a =? 37) eqn:E2; [lia|]. now rewrite IH.
  - destruct (byteZ a =? 32) eqn:Es.
    + cbn [QueryUnescape]. change (byteZ "+" =? 43) with true. cbv iota.
      rewrite IH. f_equal. apply byteZ_inj. change (byteZ " ") with 32. lia.
    + cbn [QueryUnescape].
      change (byteZ "%" =? 43) with false. change (byteZ "%" =? 37) with true.
      cbv iota.
      destruct (upperhex_spec (byteZ a / 16)) as [-> _]; [dlia|].
      destruct (upperhex_spec (byteZ a mod 16)) as [-> _]; [dlia|].
      rewrite IH. f_equal. rewrite <- (byteA_byteZ a) at 3. f_equal. dlia.
Qed.

Lemma QueryEscape_inj s1 s2 : QueryEscape s1 = QueryEscape s2 -> s1 = s2.
Proof.
  intros H. rewrite <- (QueryUnescape_QueryEscape s1), H.
  apply QueryUnescape_QueryEscape.
Qed.

(** An escaped string holds neither [&] nor [=]. *)
Lemma QueryEscape_clean s :
  hasByte 38 (QueryEscape s) = false /\ hasByte 61 (QueryEscape s) = false.
Proof.
  induction s as [|a t [IH1 IH2]]; [split; reflexivity|].
  pose proof (byteZ_range a) as Ha.
  cbn [QueryEscape]. destruct (unreserved a) eqn:Eu.
  - cbn [hasByte]. rewrite IH1, IH2. unfold unreserved in Eu. split; lia.
  - destruct (byteZ a =? 32) eqn:Es.
    + cbn [hasByte]. rewrite IH1, IH2. split; reflexivity.
    + cbn [hasByte]. rewrite IH1, IH2.
      destruct (upperhex_spec (byteZ a / 16)) as [_ H1]; [dlia|].
      destruct (upperhex_spec (byteZ a mod 16)) as [_ H2]; [dlia|].
      change (byteZ "%") with 37. split; lia.
Qed.

Lemma append_String a t s : String a t +:+ s = String a (t +:+ s).
Proof. reflexivity. Qed.

Lemma append_Empty s : EmptyString +:+ s = s.
Proof. reflexivity. Qed.

Lemma hasByte_app c s1 s2 :
  hasByte c (s1 +:+ s2) = hasByte c s1 || hasByte c s2.
Proof.
  induction s1 as [|a t IH]; [reflexivity|].
  rewrite append_String. cbn [hasByte]. rewrite IH. apply orb_assoc.
Qed.

Lemma beforeEq_app k v :
  hasByte 61 k = false -> beforeEq (k +:+ "=" +:+ v) = k.
Proof.
  induction k as [|a t IH]; intros H.
  - reflexivity.
  - cbn [hasByte] in H. apply orb_false_elim in H as [Ha Ht].
    rewrite append_String. cbn [beforeEq]. rewrite Ha. f_equal. apply IH, Ht.
Qed.

Lemma splitOn_clean sep s : hasByte sep s = false -> splitOn sep s = [s].
Proof.
  induction s as [|a t IH]; intros H; [reflexivity|].
  cbn [hasByte] in H. apply orb_false_elim in H as [Ha Ht].
  cbn [splitOn]. rewrite Ha, (IH Ht). reflexivity.
Qed.

Lemma splitOn_app s rest :
  hasByte 38 s = false ->
  splitOn 38 (s +:+ "&" +:+ rest) = s :: splitOn 38 rest.
Proof.
  intros H. induction s as [|a t IH].
  - reflexivity.
  - cbn [hasByte] in H. apply orb_false_elim in H as [Ha Ht].
    rewrite append_String. cbn [splitOn]. rewrite Ha, (IH Ht). reflexivity.
Qed.

(** Splitting what [Encode] joined gives the pieces back. *)
Lemma splitOn_concat segs :
  segs <> [] ->
  Forall (fun seg => hasByte 38 seg = false) segs ->
  splitOn 38 (String.concat "&" segs) = segs.
Proof.
  induction segs as [|x l IH]; intros Hne Hc; [congruence|].
  inversion Hc as [|? ? Hx Hl]; subst.
  destruct l as [|y l].
  - cbn [String.concat]. apply splitOn_clean, Hx.
  - change (String.concat "&" (x :: y :: l))
      with (x +:+ "&" +:+ String.concat "&" (y :: l)).
    rewrite splitOn_app by exact Hx. f_equal. apply IH; [discriminate|exact Hl].
Qed.

(** ** The parameters [Encode] writes *)

Lemma sortedKeys_NoDup (q : Values) : NoDup (sortedKeys q).
Proof.
  unfold sortedKeys. rewrite merge_sort_Permutation.
  apply (NoDup_fst_map_to_list q).
Qed.

Lemma sortedKeys_elem (q : Values) k : k ∈ sortedKeys q <-> is_Some (q !! k).
Proof.
  unfold sortedKeys. rewrite merge_sort_Permutation.
  rewrite list_elem_of_fmap. split.
  - intros [[k' v] [-> H]]. apply elem_of_map_to_list in H. eauto.
  - intros [v H]. exists (k, v). split; [reflexivity|].
    now apply elem_of_map_to_list.
Qed.

Definition piece (k v : string) : string :=
  QueryEscape k +:+ "=" +:+ QueryEscape v.

Lemma encodeParams_pieces (q : Values) :
  encodeParams q
  = flat_map (fun k => map (piece k) (default [] (q !! k))) (sortedKeys q).
Proof. reflexivity. Qed.

Lemma piece_clean k v : hasByte 38 (piece k v) = false.
Proof.
  unfold piece. rewrite !hasByte_app.
  destruct (QueryEscape_clean k) as [-> _].
  destruct (QueryEscape_clean v) as [-> _]. reflexivity.
Qed.

Lemma piece_name k v : QueryUnescape (beforeEq (piece k v)) = k.
Proof.
  unfold piece. rewrite beforeEq_app by apply QueryEscape_clean.
  apply QueryUnescape_QueryEscape.
Qed.

Lemma piece_nonempty k v : piece k v <> EmptyString.
Proof.
  unfold piece. intros H.
  assert (Hb : hasByte 61 (QueryEscape k +:+ "=" +:+ QueryEscape v) = true).
  { rewrite !hasByte_app. cbn [hasByte].
    change (byteZ "=" =? 61) with true. cbn [orb]. apply orb_true_r. }
  rewrite H in Hb. discriminate Hb.
Qed.

Lemma encodeParams_clean (q : Values) :
  Forall (fun seg => hasByte 38 seg = false /\ seg <> EmptyString)
         (encodeParams q).
Proof.
  rewrite encodeParams_pieces. apply List.Forall_forall. intros seg Hin.
  apply in_flat_map in Hin as (k & _ & Hin).
  apply in_map_iff in Hin as (v & <- & _).
  split; [apply piece_clean | apply piece_nonempty].
Qed.

(** Splitting what [Encode] joined gives the pieces back. *)
Lemma queryPieces_concat segs :
  Forall (fun seg => hasByte 38 seg = false /\ seg <> EmptyString) segs ->
  queryPieces (String.concat "&" segs) = segs.
Proof.
  unfold queryPieces. intros H.
  destruct segs as [|x l]; [reflexivity|].
  rewrite splitOn_concat; [|discriminate|].
  - induction H as [|y l' [_ Hy] _ IH]; [reflexivity|].
    rewrite filter_cons_True by exact Hy. now rewrite IH.
  - eapply Forall_impl; [exact H|]. now intros y [Hy _].
Qed.

Lemma filter_pieces name k vs :
  filter (fun seg => QueryUnescape (beforeEq seg) = name) (map (piece k) vs)
  = if decide (k = name) then map (piece k) vs else [].
Proof.
  induction vs as [|v vs IH].
  - destruct (decide (k = name)); reflexivity.
  - cbn [map]. rewrite filter_cons, IH, piece_name.
    destruct (decide (k = name)); reflexivity.
Qed.

Lemma filter_encodeParams name (g : string -> list string) keys :
  NoDup keys ->
  filter (fun seg => QueryUnescape (beforeEq seg) = name)
         (flat_map (fun k => map (piece k) (g k)) keys)
  = if decide (name ∈ keys) then map (piece name) (g name) else [].
Proof.
  induction 1 as [|k keys Hk Hnd IH].
  - reflexivity.
  - cbn [flat_map]. rewrite filter_app, filter_pieces, IH.
    destruct (decide (k = name)) as [->|Hne].
    + rewrite (decide_True _ _ (list_elem_of_here name keys)).
      rewrite (decide_False _ _ Hk). apply app_nil_r.
    + destruct (decide (name ∈ keys)) as [Hin|Hin].
      * rewrite (decide_True _ _ (list_elem_of_further name k keys Hin)).
        reflexivity.
      * rewrite decide_False; [reflexivity|].
        intros [->|H']%elem_of_cons; [congruence | contradiction].
Qed.

(** The parameters named [name] in an encoded query are the values the map
    holds for [name], in order. *)
Lemma queryParams_Encode name (q : Values) :
  queryParams name (Values_Encode q)
  = map (piece name) (default [] (q !! name)).
Proof.
  unfold queryParams, Values_Encode.
  rewrite queryPieces_concat by apply encodeParams_clean.
  rewrite encodeParams_pieces, filter_encodeParams by apply sortedKeys_NoDup.
  destruct (decide (name ∈ sortedKeys q)) as [Hin|Hin]; [reflexivity|].
  destruct (q !! name) eqn:Hq; [|reflexivity].
  exfalso. apply Hin, sortedKeys_elem. eauto.
Qed.

(** After [q.Set("table", "swan")] the encoded query holds one [table]
    parameter, with the value [swan], whatever [q] held. *)
Lemma queryParams_table (q : Values) :
  queryParams "table" (Values_Encode (Values_Set "table" "swan" q))
  = ["table=swan"%string].
Proof.
  rewrite queryParams_Encode. unfold Values_Set.
  rewrite lookup_insert_eq. reflexivity.
Qed.

(** ** A test double for the collaborators *)

Fixpoint afterEq (seg : string) : string :=
  match seg with
  | EmptyString => EmptyString
  | String a t => if byteZ a =? 61 then t else afterEq t
  end.

Definition parseQuery (raw : string) : Values :=
  fold_left (fun (m : Values) seg =>
               let k := QueryUnescape (beforeEq seg) in
               let v := QueryUnescape (afterEq seg) in
               <[k := default [] (m !! k) ++ [v]]> m)
            (queryPieces raw) ∅.

Definition plainURLString (u : URL) : string :=
  uScheme u +:+ "://" +:+ uHost u +:+ uPath u +:+ "?" +:+ uRawQuery u.

Definition showPair (p : Pair) : string :=
  "{" +:+ Key p +:+ "," +:+ Value p +:+ "," +:+ pretty (Expires p) +:+ "}".

(** What a test chooses: the answer of the access check, of the discovery,
    of the validator and of the transport, the decoded pairs and the clock.
    The creator signs nothing and the token is the payload in hexadecimal,
    so that a test can read it. *)
Record Fixture := {
  fxAllow : bool;
  fxDiscovery : string * option error;
  fxValid : bool;
  fxGet : string -> Response + error;
  fxPairs : list Pair;
  fxClock : nat -> Z;
}.

Definition testEnv (fx : Fixture) : Env :=
  {| getAccessAllowed := fun _ => fxAllow fx;
     validateCommon := fun _ q w =>
       if fxValid fx then (true, q, w)
       else (false, q, http_Error "Missing returnUrl" 400 w);
     url_Parse := fun _ =>
       inl {| uScheme := "https"; uHost := "node.example";
              uPath := ""; uRawQuery := "" |};
     url_ParseQuery := fun raw => (parseQuery raw, None);
     URL_String := plainURLString;
     http_Get := fxGet fx;
     GetAccessNode := fun _ => fxDiscovery fx;
     Creator := string;
     OWID := string * list ascii;
     GetCreator := fun host => (Some host, None);
     CreateOWID := fun cr v => (cr, v);
     Sign := fun _ o => (o, None);
     AsBase64 := fun o => (hexOf (snd o), None);
     DecodeResults := fun _ => inl (fxPairs fx);
     json_Marshal := fun vs => inl (String.concat "" (map showPair vs));
     now := fxClock fx;
     uuid_New := fun n => "uuid-" +:+ pretty n;
     dateInThreeMonths := fun _ => "2021-02-18" |}.

Definition okGet (body : string) : string -> Response + error :=
  fun _ => inl {| StatusCode := StatusOK; Body := inl body |}.

Definition noInject (q : Values) (st : State) : Values * State := (q, st).

(** ** The storage-operation URL composer: going on, and stopping *)

(** The returns of [createStorageOperationURL] after [http.Get], by what
    the transport answers to the request for [url]: its error; for a status
    other than 200 the error of [newResponseError]; else the body as
    [ioutil.ReadAll] gives it, or the error of the read. *)
Definition storageResult (url : string) (answer : Response + error)
  : string * option error :=
  match answer with
  | inr err => (EmptyString, Some err)
  | inl res =>
    if StatusCode res =? StatusOK then
      match Body res with
      | inr err => (EmptyString, Some err)
      | inl b => (b, None)
      end
    else (EmptyString, Some (newResponseError url res))
  end.

(** The second part of [createStorageOperationURL], outcome by outcome. *)
Lemma requestStorageOperation_run (E : Env) (c : Configuration)
    (q : Values) (fn : Values -> State -> Values * State) (st : State) :
  let u := {| uScheme := Scheme c; uHost := accessNode st;
              uPath := "/swift/api/v1/create";
              uRawQuery := Values_Encode
                             (Values_Set "table" "swan" (fst (fn q st))) |} in
  requestStorageOperation E c q fn st
  = (storageResult (URL_String E u) (http_Get E (URL_String E u)),
     Values_Set "table" "swan" (fst (fn q st)),
     emit (EvGet u) (snd (fn q st))).
Proof.
  unfold requestStorageOperation, storageResult.
  destruct (fn q st) as [q1 st2]. cbn [fst snd].
  destruct (http_Get E _) as [res|err]; [|reflexivity].
  destruct (StatusCode res =? StatusOK); cbn [negb]; [|reflexivity].
  destruct (Body res); reflexivity.
Qed.

(** Its last event is the request, not a discovery. *)
Lemma requestStorageOperation_not_stopped (E : Env) (c : Configuration)
    (q : Values) (fn : Values -> State -> Values * State) (st : State)
    (res : string * option error) (q' : Values) (st0 : State) (n : string) :
  requestStorageOperation E c q fn st <> (res, q', emit (EvGetAccessNode n) st0).
Proof.
  intros H. rewrite requestStorageOperation_run in H.
  apply (f_equal (fun t => events (snd t))) in H.
  cbn [snd emit events] in H. apply app_inj_tail in H as [_ H].
  discriminate H.
Qed.

(** The state the first part of [createStorageOperationURL] hands on when
    it does not fail: the node of the discovery is cached when none was. *)
Definition afterCheck (E : Env) (c : Configuration) (st : State) : State :=
  if String.eqb (accessNode st) ""
  then setAccessNode (fst (GetAccessNode E (Network c)))
         (emit (EvGetAccessNode (Network c)) st)
  else st.

(** Unless nothing is cached and the discovery returns an error with an
    empty node, the function goes on to the request. *)
Lemma createStorageOperationURL_goes_on (E : Env) (c : Configuration)
    (q : Values) (fn : Values -> State -> Values * State) (st : State) :
  accessNode st <> EmptyString
  \/ snd (GetAccessNode E (Network c)) = None
  \/ fst (GetAccessNode E (Network c)) <> EmptyString ->
  createStorageOperationURL E c q fn st
  = requestStorageOperation E c q fn (afterCheck E c st).
Proof.
  intros H. unfold createStorageOperationURL, checkAccessNode, afterCheck.
  destruct (String.eqb_spec (accessNode st) "") as [Ha|Ha]; [|reflexivity].
  destruct (GetAccessNode E (Network c)) as [an [e|]];
    cbn [fst snd isNil negb andb] in *; [|reflexivity].
  destruct (String.eqb_spec an "") as [Hn|Hn]; [|reflexivity].
  exfalso. destruct H as [H|[H|H]]; [contradiction | discriminate | contradiction].
Qed.

(** In that one case it stops: no request, the parameters untouched. *)
Lemma createStorageOperationURL_stops (E : Env) (c : Configuration)
    (q : Values) (fn : Values -> State -> Values * State) (st : State) :
  accessNode st = EmptyString ->
  snd (GetAccessNode E (Network c)) <> None ->
  fst (GetAccessNode E (Network c)) = EmptyString ->
  createStorageOperationURL E c q fn st
  = ((EmptyString, Some (noAccessNodeError c)), q,
     emit (EvGetAccessNode (Network c)) st).
Proof.
  intros Ha He Hn. unfold createStorageOperationURL, checkAccessNode.
  rewrite Ha. cbn [String.eqb].
  destruct (GetAccessNode E (Network c)) as [an [e|]]; cbn [fst snd] in *;
    [|congruence].
  subst an. reflexivity.
Qed.

(** ** The storage-operation URL composer: the table parameter *)

(** C2: unless the access node check fails (nothing cached, and a discovery
    that returns an error with an empty node), [createStorageOperationURL]
    sends exactly one request, a GET of the URL with the configured scheme,
    the access node, the path [/swift/api/v1/create] and, as its query, the
    encoding of the parameters as the injection function left them with
    [table] then set to [swan].  Whatever the publisher or the injection
    function put under [table], the parameters hold the one value [swan]
    there and are otherwise as the injection function left them, and the
    query read back holds exactly one [table] parameter, [table=swan]. *)
Theorem createStorageOperationURL_table (E : Env) (c : Configuration)
    (q : Values) (fn : Values -> State -> Values * State) (st : State) :
  accessNode st <> EmptyString
  \/ snd (GetAccessNode E (Network c)) = None
  \/ fst (GetAccessNode E (Network c)) <> EmptyString ->
  let st1 :=
    if String.eqb (accessNode st) ""
    then setAccessNode (fst (GetAccessNode E (Network c)))
           (emit (EvGetAccessNode (Network c)) st)
    else st in
  let q1 := fst (fn q st1) in
  let u := {| uScheme := Scheme c; uHost := accessNode st1;
              uPath := "/swift/api/v1/create";
              uRawQuery := Values_Encode (Values_Set "table" "swan" q1) |} in
  let out := createStorageOperationURL E c q fn st in
  snd out = emit (EvGet u) (snd (fn q st1))
  /\ fst (fst out)
     = storageResult (URL_String E u) (http_Get E (URL_String E u))
  /\ snd (fst out) = Values_Set "table" "swan" q1
  /\ snd (fst out) !! "table"%string = Some ["swan"%string]
  /\ (forall k : string, k <> "table"%string -> snd (fst out) !! k = q1 !! k)
  /\ uRawQuery u = Values_Encode (snd (fst out))
  /\ queryParams "table" (uRawQuery u) = ["table=swan"%string].
Proof.
  intros H st1 q1 u out. subst out.
  rewrite (createStorageOperationURL_goes_on E c q fn st H).
  fold st1 in u |- *. change (afterCheck E c st) with st1.
  rewrite requestStorageOperation_run. cbn [fst snd]. fold q1. fold u.
  split; [reflexivity|]. split; [reflexivity|]. split; [reflexivity|].
  split; [apply lookup_insert_eq|].
  split; [intros k Hk; apply lookup_insert_ne; congruence|].
  split; [reflexivity|]. apply queryParams_table.
Qed.

Definition fooRequest : Values := <["table" := ["foo"]]> (<["returnUrl" := ["https://pub.example/"]]> ∅).

Definition fetchFixture : Fixture :=
  {| fxAllow := true; fxDiscovery := ("51da.uk"%string, None); fxValid := true;
     fxGet := okGet "https://51db.uk/next";
     fxPairs := []; fxClock := fun n => 1600000000000000000 + Z.of_nat n |}.

(** An injection function that sets [table] itself, and one more
    parameter. *)
Definition injectTable (q : Values) (st : State) : Values * State :=
  (Values_Set "table" "bar" (Values_Set "partner" "p 1" q), st).

Lemma createStorageOperationURL_table_witness :
  let out := createStorageOperationURL (testEnv fetchFixture) production
               fooRequest injectTable (initState "") in
  fooRequest !! "table"%string = Some ["foo"%string]
  /\ fst (injectTable fooRequest (initState "")) !! "table"%string
     = Some ["bar"%string]
  /\ fst (fst out) = ("https://51db.uk/next"%string, None)
  /\ events (snd out)
     = [EvGetAccessNode "swan";
        EvGet {| uScheme := "https"; uHost := "51da.uk";
                 uPath := "/swift/api/v1/create";
                 uRawQuery := "partner=p+1&returnUrl=https%3A%2F%2Fpub.example%2F&table=swan" |}]
  /\ snd (fst out) !! "table"%string = Some ["swan"%string]
  /\ queryParams "table"
       "partner=p+1&returnUrl=https%3A%2F%2Fpub.example%2F&table=swan"
     = ["table=swan"%string].
Proof.
  intros out.
  pose proof (createStorageOperationURL_table (testEnv fetchFixture)
                production fooRequest injectTable (initState "")
                (or_intror (or_introl eq_refl)))
    as (Hs & Hr & _ & Ht & _ & _ & Hq).
  fold out in Hs, Hr, Ht.
  split; [vm_compute; reflexivity|]. split; [vm_compute; reflexivity|].
  split; [rewrite Hr; vm_compute; reflexivity|].
  split; [rewrite Hs; vm_compute; reflexivity|].
  split; [exact Ht|].
  rewrite <- Hq. f_equal.
Defined.

(** The test of the spec: a supplied [table=foo] comes out as
    [table=swan]. *)
Example createStorageOperationURL_table_foo :
  events (snd (createStorageOperationURL (testEnv fetchFixture) production
                 fooRequest noInject (initState "")))
  = [EvGetAccessNode "swan";
     EvGet {| uScheme := "https"; uHost := "51da.uk";
              uPath := "/swift/api/v1/create";
              uRawQuery := "returnUrl=https%3A%2F%2Fpub.example%2F&table=swan" |}].
Proof. vm_compute. reflexivity. Qed.

(** ** The access node check *)

Lemma String_eqb_false (s1 s2 : string) : s1 <> s2 -> String.eqb s1 s2 = false.
Proof. intros H. now apply String.eqb_neq. Qed.

(** When the access node check fails: exactly when nothing is cached and the
    discovery returns an error together with an empty node. *)
Lemma checkAccessNode_fails (E : Env) (c : Configuration) (st : State) :
  fst (checkAccessNode E c st) <> None
  <-> accessNode st = EmptyString
      /\ snd (GetAccessNode E (Network c)) <> None
      /\ fst (GetAccessNode E (Network c)) = EmptyString.
Proof.
  unfold checkAccessNode.
  destruct (String.eqb_spec (accessNode st) "") as [Ha|Ha].
  - destruct (GetAccessNode E (Network c)) as [an [e|]]; cbn [isNil negb andb fst snd].
    + destruct (String.eqb_spec an "") as [Hn|Hn]; cbn [fst]; split.
      * intros _. repeat split; [exact Ha | discriminate | exact Hn].
      * discriminate.
      * congruence.
      * intros (_ & _ & Hn'). contradiction.
    + split; [congruence|]. intros (_ & H & _). congruence.
  - cbn [fst]. split; [congruence|]. intros (H & _). contradiction.
Qed.

(** C10: with nothing cached, a discovery that returns a node together with
    an error has its error dropped.  The node is cached before the injection
    function runs, and the function goes on as with no error: it sends the
    GET of the URL with the configured scheme, that node as the host, the
    path [/swift/api/v1/create] and the encoded parameters with [table] set
    to [swan], and returns what the transport answers; the error of the
    discovery is in neither the result nor the state.  For every
    collaborator, the call ends with the error that names the network, no
    request sent, exactly when nothing is cached and the discovery returns
    an error together with an empty node. *)
Theorem createStorageOperationURL_discovery_error_dropped (E : Env)
    (c : Configuration) (q : Values) (fn : Values -> State -> Values * State)
    (st : State) (an : string) (e : error) :
  accessNode st = EmptyString ->
  GetAccessNode E (Network c) = (an, Some e) ->
  an <> EmptyString ->
  let st1 := setAccessNode an (emit (EvGetAccessNode (Network c)) st) in
  let u := {| uScheme := Scheme c; uHost := an;
              uPath := "/swift/api/v1/create";
              uRawQuery := Values_Encode
                             (Values_Set "table" "swan" (fst (fn q st1))) |} in
  let out := createStorageOperationURL E c q fn st in
  snd out = emit (EvGet u) (snd (fn q st1))
  /\ fst (fst out)
     = storageResult (URL_String E u) (http_Get E (URL_String E u))
  /\ snd (fst out) = Values_Set "table" "swan" (fst (fn q st1))
  /\ (snd (fn q st1) = st1 ->
      accessNode (snd out) = an
      /\ events (snd out)
         = events st ++ [EvGetAccessNode (Network c); EvGet u])
  /\ (forall (E0 : Env) (st0 : State),
        createStorageOperationURL E0 c q fn st0
        = ((EmptyString, Some (noAccessNodeError c)), q,
           emit (EvGetAccessNode (Network c)) st0)
        <-> accessNode st0 = EmptyString
            /\ snd (GetAccessNode E0 (Network c)) <> None
            /\ fst (GetAccessNode E0 (Network c)) = EmptyString).
Proof.
  intros Ha Hg Hn st1 u out. subst out.
  assert (Hgo : accessNode st <> EmptyString
                \/ snd (GetAccessNode E (Network c)) = None
                \/ fst (GetAccessNode E (Network c)) <> EmptyString)
    by (right; right; now rewrite Hg).
  rewrite (createStorageOperationURL_goes_on E c q fn st Hgo).
  assert (H1 : afterCheck E c st = st1)
    by (unfold afterCheck; now rewrite Ha, Hg).
  rewrite H1, requestStorageOperation_run. cbn [fst snd].
  change (accessNode st1) with an. fold u.
  split; [reflexivity|]. split; [reflexivity|]. split; [reflexivity|].
  split.
  - intros ->. cbn [emit accessNode events st1 setAccessNode].
    split; [reflexivity|]. now rewrite <- app_assoc.
  - intros E0 st0. split.
    + intros H.
      destruct (String.eqb_spec (accessNode st0) "") as [Ha0|Ha0].
      * destruct (GetAccessNode E0 (Network c)) as [an0 [e0|]] eqn:Hg0.
        -- destruct (String.eqb_spec an0 "") as [Hn0|Hn0].
           ++ cbn [fst snd]. repeat split; [exact Ha0 | discriminate | exact Hn0].
           ++ exfalso.
              rewrite (createStorageOperationURL_goes_on E0 c q fn st0) in H
                by (right; right; now rewrite Hg0).
              exact (requestStorageOperation_not_stopped _ _ _ _ _ _ _ _ _ H).
        -- exfalso.
           rewrite (createStorageOperationURL_goes_on E0 c q fn st0) in H
             by (right; left; now rewrite Hg0).
           exact (requestStorageOperation_not_stopped _ _ _ _ _ _ _ _ _ H).
      * exfalso.
        rewrite (createStorageOperationURL_goes_on E0 c q fn st0) in H
          by (left; exact Ha0).
        exact (requestStorageOperation_not_stopped _ _ _ _ _ _ _ _ _ H).
    + intros (Ha0 & He0 & Hn0).
      now apply createStorageOperationURL_stops.
Qed.

Definition flakyDiscovery : Fixture :=
  {| fxAllow := true;
     fxDiscovery := ("51da.uk"%string, Some "store is stale"%string);
     fxValid := true; fxGet := okGet "https://51db.uk/next";
     fxPairs := []; fxClock := fun n => 1600000000000000000 + Z.of_nat n |}.

Lemma createStorageOperationURL_discovery_error_dropped_witness :
  let E := testEnv flakyDiscovery in
  let out := createStorageOperationURL E production fooRequest noInject
               (initState "") in
  GetAccessNode E (Network production)
  = ("51da.uk"%string, Some "store is stale"%string)
  /\ fst (fst out) = ("https://51db.uk/next"%string, None)
  /\ accessNode (snd out) = "51da.uk"%string
  /\ events (snd out)
     = [EvGetAccessNode "swan";
        EvGet {| uScheme := "https"; uHost := "51da.uk";
                 uPath := "/swift/api/v1/create";
                 uRawQuery := "returnUrl=https%3A%2F%2Fpub.example%2F&table=swan" |}].
Proof.
  intros E out.
  pose proof (createStorageOperationURL_discovery_error_dropped
                E production fooRequest noInject (initState "")
                "51da.uk" "store is stale" eq_refl eq_refl)
    as (_ & Hr & _ & Hs & _); [discriminate|].
  destruct (Hs eq_refl) as [Hn He]. fold out in Hr, Hn, He.
  split; [reflexivity|].
  split; [rewrite Hr; vm_compute; reflexivity|].
  split; [exact Hn|].
  rewrite He. vm_compute. reflexivity.
Defined.

(** The failing input of C4: nothing cached, and a discovery that returns
    an empty node and no error.  The transport refuses a URL without a
    host. *)
Definition emptyDiscovery : Fixture :=
  {| fxAllow := true; fxDiscovery := (EmptyString, None); fxValid := true;
     fxGet := fun _ => inr "http: no Host in request URL"%string;
     fxPairs := []; fxClock := fun n => 1600000000000000000 + Z.of_nat n |}.

(** C4 on the code: the check lets the empty node through, caches it, and
    the create-operation request is sent to a URL without a host; the error
    returned is the transport's, not the one that names the network. *)
Theorem createStorageOperationURL_empty_node_goes_on :
  let '(res, _, st') :=
    createStorageOperationURL (testEnv emptyDiscovery) production fooRequest
      noInject (initState "") in
  res = (EmptyString, Some "http: no Host in request URL"%string)
  /\ snd res <> Some (noAccessNodeError production)
  /\ events st'
     = [EvGetAccessNode "swan";
        EvGet {| uScheme := "https"; uHost := "";
                 uPath := "/swift/api/v1/create";
                 uRawQuery := "returnUrl=https%3A%2F%2Fpub.example%2F&table=swan" |}].
Proof. vm_compute. repeat split. discriminate. Qed.

(** The same for every collaborator: an empty node without an error passes
    the check. *)
Lemma checkAccessNode_empty_node (E : Env) (c : Configuration) (st : State) :
  accessNode st = EmptyString ->
  GetAccessNode E (Network c) = (EmptyString, None) ->
  checkAccessNode E c st
  = (None, setAccessNode "" (emit (EvGetAccessNode (Network c)) st)).
Proof.
  intros Ha Hg. unfold checkAccessNode. now rewrite Ha, Hg.
Qed.

(** ** The access gate *)

Lemma returnAPIError_events c err code st :
  events (returnAPIError c err code st) = events st
  /\ ticks (returnAPIError c err code st) = ticks st
  /\ uuids (returnAPIError c err code st) = uuids st
  /\ accessNode (returnAPIError c err code st) = accessNode st.
Proof.
  unfold returnAPIError. destruct (Debug c); repeat split; reflexivity.
Qed.

Lemma WriteHeader_status code w :
  rwStatus (WriteHeader code w)
  = match rwStatus w with Some x => Some x | None => Some code end.
Proof. unfold WriteHeader. destruct (rwStatus w) eqn:E; [exact E | reflexivity]. Qed.

Lemma Write_status b w x :
  rwStatus w = Some x -> rwStatus (fst (Write b w)) = Some x.
Proof.
  intros H. unfold Write.
  assert (Hw : WriteHeader StatusOK w = w) by (unfold WriteHeader; now rewrite H).
  rewrite Hw. destruct (rwWriteErr w); exact H.
Qed.

Lemma http_Error_status msg code w :
  rwStatus w = None -> rwStatus (http_Error msg code w) = Some code.
Proof.
  intros H. unfold http_Error. apply Write_status.
  rewrite WriteHeader_status. cbn [HeaderSet rwStatus]. now rewrite H.
Qed.

Lemma returnAPIError_status c err code st :
  rwStatus (resp st) = None ->
  rwStatus (resp (returnAPIError c err code st)) = Some code.
Proof.
  intros H. unfold returnAPIError.
  destruct (Debug c); cbn [println setResp resp];
    apply http_Error_status; exact H.
Qed.

(** C6: a request the access gate denies is answered by both handlers with
    the error helper alone: the status is 401, no event is added (no request
    sent, no discovery, nothing signed), the clock is not read and the
    cached access node is untouched. *)
Theorem denied_request_stops (E : Env) (c : Configuration) (r : Request)
    (st : State) :
  getAccessAllowed E r = false ->
  rwStatus (resp st) = None ->
  let d := handlerDecodeAsJSON E c r st in
  let f := handlerFetch E c r st in
  (d = returnAPIError c "Not authorized" StatusUnauthorized st
   /\ rwStatus (resp d) = Some StatusUnauthorized
   /\ events d = events st /\ ticks d = ticks st
   /\ accessNode d = accessNode st)
  /\ (f = returnAPIError c "Not authorized" StatusUnauthorized st
      /\ rwStatus (resp f) = Some StatusUnauthorized
      /\ events f = events st /\ ticks f = ticks st
      /\ accessNode f = accessNode st).
Proof.
  intros Hd Hs d f. subst d f. unfold handlerDecodeAsJSON, handlerFetch.
  rewrite Hd. cbn [negb].
  pose proof (returnAPIError_events c "Not authorized" StatusUnauthorized st)
    as (He & Ht & _ & Ha).
  pose proof (returnAPIError_status c "Not authorized" StatusUnauthorized st Hs).
  repeat split; assumption.
Qed.

Definition deniedFixture : Fixture :=
  {| fxAllow := false; fxDiscovery := ("51da.uk"%string, None); fxValid := true;
     fxGet := okGet "https://51db.uk/next";
     fxPairs := []; fxClock := fun n => 1600000000000000000 + Z.of_nat n |}.

Definition fetchRequest : Request :=
  {| Host := "swan.example"; Form := fooRequest; ParseFormErr := None |}.

Lemma denied_request_stops_witness :
  getAccessAllowed (testEnv deniedFixture) fetchRequest = false
  /\ rwStatus (resp (handlerDecodeAsJSON (testEnv deniedFixture) production
                       fetchRequest (initState ""))) = Some StatusUnauthorized
  /\ events (handlerDecodeAsJSON (testEnv deniedFixture) production
               fetchRequest (initState "")) = []
  /\ rwStatus (resp (handlerFetch (testEnv deniedFixture) production
                       fetchRequest (initState ""))) = Some StatusUnauthorized
  /\ events (handlerFetch (testEnv deniedFixture) production
               fetchRequest (initState "")) = [].
Proof.
  pose proof (denied_request_stops (testEnv deniedFixture) production
                fetchRequest (initState "") eq_refl eq_refl)
    as ((_ & Hd & Hde & _) & (_ & Hf & Hfe & _)).
  split; [reflexivity|]. repeat split; assumption.
Defined.

(** ** The validator on the fetch path *)

(** The same collaborators, with the signal of the validator turned
    round. *)
Definition flipSignal (E : Env) : Env :=
  {| getAccessAllowed := getAccessAllowed E;
     validateCommon := fun r q w =>
       let '(ok, q1, w1) := validateCommon E r q w in (negb ok, q1, w1);
     url_Parse := url_Parse E;
     url_ParseQuery := url_ParseQuery E;
     URL_String := URL_String E;
     http_Get := http_Get E;
     GetAccessNode := GetAccessNode E;
     Creator := Creator E;
     OWID := OWID E;
     GetCreator := GetCreator E;
     CreateOWID := CreateOWID E;
     Sign := Sign E;
     AsBase64 := AsBase64 E;
     DecodeResults := DecodeResults E;
     json_Marshal := json_Marshal E;
     now := now E;
     uuid_New := uuid_New E;
     dateInThreeMonths := dateInThreeMonths E |}.

(** [handlerFetch] does not look at what the validator signals. *)
Lemma handlerFetch_ignores_signal (E : Env) (c : Configuration) (r : Request)
    (st : State) :
  handlerFetch (flipSignal E) c r st = handlerFetch E c r st.
Proof.
  unfold handlerFetch. cbn [flipSignal getAccessAllowed url_ParseQuery validateCommon].
  destruct (getAccessAllowed E r); [|reflexivity]. cbn [negb].
  destruct (ParseFormErr r); [reflexivity|].
  destruct (url_ParseQuery E (Values_Encode (Form r))) as [q [err|]];
    [reflexivity|].
  destruct (validateCommon E r q (resp st)) as [[ok q1] w1]. reflexivity.
Qed.

Definition rejectingFixture : Fixture :=
  {| fxAllow := true; fxDiscovery := ("51da.uk"%string, None); fxValid := false;
     fxGet := okGet "https://51db.uk/next";
     fxPairs := []; fxClock := fun n => 1600000000000000000 + Z.of_nat n |}.

(** C7 on the code: the validator rejects the parameters and writes its
    error response (status 400); [handlerFetch] goes on all the same, asks
    for the access node, sends the create-operation request, and appends the
    URL it got to the body the validator wrote. *)
Theorem handlerFetch_goes_on_after_rejection :
  let E := testEnv rejectingFixture in
  let st' := handlerFetch E production fetchRequest (initState "") in
  fst (fst (validateCommon E fetchRequest fooRequest newResponseWriter)) = false
  /\ events st'
     = [EvGetAccessNode "swan";
        EvGet {| uScheme := "https"; uHost := "51da.uk";
                 uPath := "/swift/api/v1/create";
                 uRawQuery := "allow%3C2021-02-18=&cbid%3C2021-02-18=uuid-0&email%3C2021-02-18=&returnUrl=https%3A%2F%2Fpub.example%2F&table=swan" |}]
  /\ rwStatus (resp st') = Some 400
  /\ rwBody (resp st') = "Missing returnUrl" +:+ nl +:+ "https://51db.uk/next".
Proof. vm_compute. repeat split. Qed.

(** ** The decode pipeline: the email field *)

Lemma be32_length x : length (SHA1.be32 x) = 4%nat.
Proof. reflexivity. Qed.

(** [createSID] returns [sha1.Size] bytes, whatever the string. *)
Lemma createSID_length s : length (createSID s) = SHA1.Size.
Proof.
  unfold createSID, SHA1.sum. rewrite length_map, !length_app, !be32_length.
  reflexivity.
Qed.

(** What a successful [encodeAsOWID] did. *)
Lemma encodeAsOWID_ok (E : Env) (r : Request) v st value st1 :
  encodeAsOWID E r v st = ((value, None), st1) ->
  exists cr, GetCreator E (Host r) = (Some cr, None)
             /\ snd (Sign E cr (CreateOWID E cr v)) = None
             /\ AsBase64 E (fst (Sign E cr (CreateOWID E cr v))) = (value, None)
             /\ st1 = emit (EvSign (Host r) v) st.
Proof.
  unfold encodeAsOWID.
  destruct (GetCreator E (Host r)) as [[cr|] [e|]]; try discriminate.
  destruct (Sign E cr (CreateOWID E cr v)) as [o1 [e|]] eqn:Hs;
    [discriminate|].
  intros H. injection H as Hb Hst. exists cr. rewrite Hs. cbn [fst snd].
  repeat split; [exact Hb | now rewrite Hst].
Qed.

(** The payload [owidLoop] hands over for a pair. *)
Definition payloadOf (p : Pair) : list ascii :=
  if String.eqb (Key p) "email" then createSID (Value p)
  else list_ascii_of_string (Value p).

Lemma owidLoop_step (E : Env) (r : Request) p rest st values1 st1 :
  owidLoop E r (p :: rest) st = (values1, None, st1) ->
  exists value rest1,
    encodeAsOWID E r (payloadOf p) st
    = ((value, None), emit (EvSign (Host r) (payloadOf p)) st)
    /\ values1
       = {| Key := if String.eqb (Key p) "email" then "sid"%string else Key p;
            Value := value; Expires := Expires p |} :: rest1
    /\ owidLoop E r rest (emit (EvSign (Host r) (payloadOf p)) st)
       = (rest1, None, st1).
Proof.
  cbn [owidLoop]. unfold payloadOf.
  destruct (String.eqb (Key p) "email").
  - destruct (encodeAsOWID E r (createSID (Value p)) st)
      as [[value [e|]] st2] eqn:He; [discriminate|].
    pose proof (encodeAsOWID_ok _ _ _ _ _ _ He) as (cr & _ & _ & _ & ->).
    destruct (owidLoop E r rest _) as [[rest1 err1] st3] eqn:Hl.
    intros H. inversion H; subst. exists value, rest1. repeat split.
  - destruct (encodeAsOWID E r (list_ascii_of_string (Value p)) st)
      as [[value [e|]] st2] eqn:He; [discriminate|].
    pose proof (encodeAsOWID_ok _ _ _ _ _ _ He) as (cr & _ & _ & _ & ->).
    destruct (owidLoop E r rest _) as [[rest1 err1] st3] eqn:Hl.
    intros H. inversion H; subst. exists value, rest1. repeat split.
Qed.

(** A loop that ends without an error signed one payload per pair, in
    order. *)
Lemma owidLoop_events (E : Env) (r : Request) values : forall st values1 st1,
  owidLoop E r values st = (values1, None, st1) ->
  events st1 = events st ++ map (fun p => EvSign (Host r) (payloadOf p)) values
  /\ length values1 = length values.
Proof.
  induction values as [|p rest IH]; intros st values1 st1 H.
  - inversion H; subst. cbn [map]. now rewrite app_nil_r.
  - apply owidLoop_step in H as (value & rest1 & _ & -> & Hl).
    apply IH in Hl as [He Hlen]. rewrite He. cbn [emit events map length].
    rewrite <- app_assoc. split; [reflexivity | now rewrite Hlen].
Qed.

(** C1: when the loop that changes the values to OWIDs ends without an
    error, every pair that came in with the key [email] has the key [sid],
    and its value is the token made by the creator of the request's host
    from the SHA-1 checksum of the bytes of the email string.  That
    checksum is 20 bytes long and differs from the email string whenever
    the email is not itself 20 bytes long; it is the payload handed over
    for signing at the position of the pair, and the payloads handed over
    in the whole loop are, in order, the checksum for every pair keyed
    [email] and the bytes of the value for every other pair. *)
Theorem owidLoop_email (E : Env) (r : Request) (values values1 : list Pair)
    (st st1 : State) :
  owidLoop E r values st = (values1, None, st1) ->
  let sha1 := fun s : string =>
    map byteA (SHA1.sum (map byteZ (list_ascii_of_string s))) in
  drop (length (events st)) (events st1)
  = map (fun q => EvSign (Host r)
                    (if String.eqb (Key q) "email" then sha1 (Value q)
                     else list_ascii_of_string (Value q)))
        values
  /\ forall (i : nat) (p : Pair),
       values !! i = Some p -> Key p = "email"%string ->
       exists (p1 : Pair) (cr : Creator E),
         values1 !! i = Some p1
         /\ Key p1 = "sid"%string
         /\ GetCreator E (Host r) = (Some cr, None)
         /\ AsBase64 E (fst (Sign E cr (CreateOWID E cr (sha1 (Value p)))))
            = (Value p1, None)
         /\ length (sha1 (Value p)) = 20%nat
         /\ (length (list_ascii_of_string (Value p)) <> 20%nat ->
             sha1 (Value p) <> list_ascii_of_string (Value p))
         /\ drop (length (events st)) (events st1) !! i
            = Some (EvSign (Host r) (sha1 (Value p))).
Proof.
  intros H sha1.
  assert (Hall : drop (length (events st)) (events st1)
                 = map (fun q => EvSign (Host r)
                                   (if String.eqb (Key q) "email"
                                    then sha1 (Value q)
                                    else list_ascii_of_string (Value q)))
                       values).
  { destruct (owidLoop_events _ _ _ _ _ _ H) as [-> _].
    now rewrite drop_app_length. }
  split; [exact Hall|].
  intros i p Hi Hk.
  assert (Hev : drop (length (events st)) (events st1) !! i
                = Some (EvSign (Host r) (sha1 (Value p)))).
  { rewrite Hall, list_lookup_fmap, Hi. cbn [fmap option_fmap option_map].
    now rewrite Hk. }
  clear Hall. revert values1 st st1 H i Hi Hev.
  induction values as [|p0 rest IH]; intros values1 st st1 H i Hi Hev;
    [discriminate Hi|].
  apply owidLoop_step in H as (value & rest1 & He & -> & Hl).
  destruct i as [|i].
  - cbn [lookup list_lookup] in Hi. inversion Hi; subst p0.
    assert (Hp : payloadOf p = sha1 (Value p))
      by (unfold payloadOf; now rewrite Hk).
    rewrite Hp in He.
    pose proof (encodeAsOWID_ok _ _ _ _ _ _ He) as (cr & Hc & _ & Hb & _).
    eexists _, cr. split; [reflexivity|]. cbn [Key Value].
    rewrite Hk, String.eqb_refl.
    split; [reflexivity|]. split; [exact Hc|]. split; [exact Hb|].
    split; [apply createSID_length|]. split; [|exact Hev].
    intros Hn Heq. apply Hn. rewrite <- Heq. apply createSID_length.
  - assert (Hi' : rest !! i = Some p) by exact Hi. clear Hi. rename Hi' into Hi.
    destruct (IH _ _ _ Hl i Hi) as (p1 & cr & H1 & H2 & H3 & H4 & H5 & H6 & _).
    { pose proof (owidLoop_events _ _ _ _ _ _ Hl) as [Hev' _].
      rewrite Hev', drop_app_length.
      rewrite list_lookup_fmap, Hi. cbn [fmap option_fmap option_map].
      unfold payloadOf. now rewrite Hk. }
    exists p1, cr. do 6 (split; [assumption|]). exact Hev.
Qed.

Definition emailPairs : list Pair :=
  [{| Key := "email"; Value := "a@b.com"; Expires := 0 |};
   {| Key := "pref"; Value := "on"; Expires := 1700000000000000000 |}].

(** A clock that is read every two seconds. *)
Definition slowClock (n : nat) : Z := 1600000000000000000 + 2000000000 * Z.of_nat n.

Definition decodeFixture : Fixture :=
  {| fxAllow := true; fxDiscovery := ("51da.uk"%string, None); fxValid := true;
     fxGet := okGet "encrypted"; fxPairs := emailPairs; fxClock := slowClock |}.

Definition decodeRequest : Request :=
  {| Host := "swan.example"; Form := <["data" := ["blob"]]> ∅;
     ParseFormErr := None |}.

(** The SHA-1 checksum of ["a@b.com"], byte by byte. *)
Definition emailDigest : list ascii :=
  map byteA [0x10; 0x22; 0xb0; 0xc3; 0xa1; 0xd9; 0xa6; 0x40; 0x9a; 0xe0;
             0xdd; 0x23; 0x64; 0xfd; 0xcf; 0xe4; 0x1f; 0x63; 0xae; 0x22].

Lemma owidLoop_email_witness :
  let E := testEnv decodeFixture in
  let out := owidLoop E decodeRequest emailPairs (initState "51da.uk") in
  snd (fst out) = None
  /\ events (snd out)
     = [EvSign "swan.example" emailDigest;
        EvSign "swan.example" (list_ascii_of_string "on")]
  /\ emailDigest <> list_ascii_of_string "a@b.com"
  /\ exists p1, fst (fst out) !! 0%nat = Some p1
                /\ Key p1 = "sid"%string
                /\ Value p1 = "1022b0c3a1d9a6409ae0dd2364fdcfe41f63ae22"%string.
Proof.
  intros E out. subst out.
  assert (Hd : map byteA (SHA1.sum (map byteZ (list_ascii_of_string "a@b.com")))
               = emailDigest) by (vm_compute; reflexivity).
  destruct (owidLoop E decodeRequest emailPairs (initState "51da.uk"))
    as [[values1 [e|]] st1] eqn:H.
  - exfalso. vm_compute in H. discriminate H.
  - split; [reflexivity|].
    destruct (owidLoop_email E decodeRequest emailPairs values1
                (initState "51da.uk") st1 H) as [Hall Hp].
    destruct (Hp 0%nat {| Key := "email"; Value := "a@b.com"; Expires := 0 |}
                eq_refl eq_refl)
      as (p1 & cr & Hl & Hk & _ & Hb & _ & Hne & _).
    cbn [Value] in Hb, Hne. rewrite Hd in Hb, Hne.
    cbn [fst snd]. split.
    { change (drop (length (events (initState "51da.uk"))) (events st1))
        with (events st1) in Hall.
      rewrite Hall. cbn [map emailPairs Key Value String.eqb Ascii.eqb
                         Bool.eqb decodeRequest Host].
      now rewrite Hd. }
    split; [apply Hne; vm_compute; discriminate|].
    exists p1. split; [exact Hl|]. split; [exact Hk|].
    injection Hb as Hb. rewrite <- Hb. vm_compute. reflexivity.
Defined.

(** The spec's test of the email field, end to end: the body holds the key
    [sid] and the checksum of ["a@b.com"], and the only payloads handed over
    for signing are the checksum and the bytes of the other value. *)
Example handlerDecodeAsJSON_email_run :
  let st := handlerDecodeAsJSON (testEnv decodeFixture) production
              decodeRequest (initState "51da.uk") in
  rwStatus (resp st) = Some StatusOK
  /\ rwBody (resp st)
     = "{sid,1022b0c3a1d9a6409ae0dd2364fdcfe41f63ae22,1600000060000000000}"
       +:+ "{pref,6f6e,1600000062000000000}" +:+ nl
  /\ events st
     = [EvGet {| uScheme := "https"; uHost := "node.example";
                 uPath := "/swift/api/v1/decrypt";
                 uRawQuery := "accessKey=key&data=blob" |};
        EvSign "swan.example" emailDigest;
        EvSign "swan.example" (list_ascii_of_string "on")].
Proof. vm_compute. repeat split. Qed.

(** ** Errors in production mode *)

(** A deployment with debug mode off. *)
Definition liveConfig : Configuration :=
  {| Debug := false; Scheme := "https"; Network := "swan";
     AccessKey := "TOP-SECRET-KEY"; Timeout := 60 |}.

(** The access node answers the decrypt request with a 500 and a message of
    its own. *)
Definition failingUpstream : Fixture :=
  {| fxAllow := true; fxDiscovery := ("51da.uk"%string, None); fxValid := true;
     fxGet := fun _ =>
       inl {| StatusCode := 500;
              Body := inl "dial tcp 10.0.3.7:5432: connection refused"%string |};
     fxPairs := []; fxClock := slowClock |}.

Definition upstreamError : error :=
  "API call 'https://node.example/swift/api/v1/decrypt?accessKey=TOP-SECRET-KEY&data=blob' returned '500' and 'dial tcp 10.0.3.7:5432: connection refused'".

(** C3 on the code: with debug mode off, a decode request whose decrypt call
    is answered with a 500 gets the status 422 and a body that holds the
    full error text: the decrypt URL with the access key, and what the
    access node answered.  Nothing is printed on the console.
    [returnRequestError], given the same error, writes the line feed of
    [http.Error] alone; [returnAPIError] writes the text of every error,
    whatever the mode. *)
Theorem handlerDecodeAsJSON_error_text_in_production :
  let st' := handlerDecodeAsJSON (testEnv failingUpstream) liveConfig
               decodeRequest (initState "51da.uk") in
  Debug liveConfig = false
  /\ rwStatus (resp st') = Some StatusUnprocessableEntity
  /\ rwBody (resp st') = upstreamError +:+ nl
  /\ console st' = []
  /\ rwBody (resp (returnRequestError liveConfig upstreamError
                     StatusUnprocessableEntity (initState "51da.uk"))) = nl
  /\ (forall (c : Configuration) (err : error) (code : Z) (an : string),
        rwBody (resp (returnAPIError c err code (initState an))) = err +:+ nl).
Proof.
  split; [reflexivity|]. split; [vm_compute; reflexivity|].
  split; [vm_compute; reflexivity|]. split; [vm_compute; reflexivity|].
  split; [vm_compute; reflexivity|].
  intros c err code an. apply (error_body_by_helper c err code an).
Qed.

(** ** The decode pipeline: the expiry *)

Lemma expiryLoop_spec (E : Env) (c : Configuration) values : forall st values1 st1,
  expiryLoop E c values st = (values1, st1) ->
  length values1 = length values
  /\ ticks st1 = (ticks st + length values)%nat
  /\ events st1 = events st
  /\ forall i p, values !! i = Some p ->
       values1 !! i
       = Some {| Key := Key p; Value := Value p;
                 Expires := now E (ticks st + i) + timeoutDuration c |}.
Proof.
  induction values as [|p0 rest IH]; intros st values1 st1 H.
  - inversion H; subst. repeat split; [cbn [length]; lia|]. intros i p Hi.
    discriminate Hi.
  - cbn [expiryLoop] in H.
    destruct (expiryLoop E c rest (tick st)) as [rest1 st2] eqn:Hl.
    inversion H; subst. apply IH in Hl as (Hlen & Ht & He & Hv).
    cbn [tick ticks events] in *.
    repeat split; [cbn [length]; lia | cbn [length]; lia | exact He |].
    intros [|i] p Hi.
    + injection Hi as ->. now rewrite Nat.add_0_r.
    + change (rest !! i = Some p) in Hi.
      replace (ticks st + S i)%nat with (S (ticks st) + i)%nat by lia.
      exact (Hv i p Hi).
Qed.

Definition oneSecond : Configuration :=
  {| Debug := false; Scheme := "https"; Network := "swan";
     AccessKey := "key"; Timeout := 1 |}.

(** C5, as the spec states it, fails: with a timeout of one second and two
    seconds between the stamp and the next reading of the clock, the expiry
    of the first pair is already in the past at that reading, outside
    [now, now + timeout]. *)
Lemma expiry_window_fails :
  let E := testEnv decodeFixture in
  let '(values1, st1) := expiryLoop E oneSecond emailPairs (initState "51da.uk") in
  exists p1, values1 !! 0%nat = Some p1
             /\ ~ (now E (ticks st1) <= Expires p1
                   <= now E (ticks st1) + timeoutDuration oneSecond).
Proof.
  intros E.
  destruct (expiryLoop E oneSecond emailPairs (initState "51da.uk"))
    as [values1 st1] eqn:H.
  vm_compute in H. injection H as <- <-.
  eexists. split; [reflexivity|].
  cbn [Expires ticks]. vm_compute. intros [H _]. apply H. reflexivity.
Qed.

(** C5, amended: after the expiry-stamping loop every pair has its key and
    value unchanged and [Expires] equal to the UTC time read for that pair
    plus the configured timeout, whatever it held before; at any later
    reading [k] of a clock that does not run backwards, [Expires] is at most
    that reading plus the timeout, and it is at least that reading when no
    more than the timeout has passed since the pair was stamped. *)
Theorem expiryLoop_stamps (E : Env) (c : Configuration) (values : list Pair)
    (st : State) (k : nat) :
  (forall a b : nat, (a <= b)%nat -> now E a <= now E b) ->
  (ticks st + length values <= k)%nat ->
  let '(values1, st1) := expiryLoop E c values st in
  length values1 = length values
  /\ forall (i : nat) (p : Pair),
       values !! i = Some p ->
       exists p1 : Pair,
         values1 !! i = Some p1
         /\ Key p1 = Key p /\ Value p1 = Value p
         /\ Expires p1 = now E (ticks st + i) + timeoutDuration c
         /\ Expires p1 <= now E k + timeoutDuration c
         /\ (now E k - now E (ticks st + i) <= timeoutDuration c ->
             now E k <= Expires p1).
Proof.
  intros Hmono Hk.
  destruct (expiryLoop E c values st) as [values1 st1] eqn:H.
  apply expiryLoop_spec in H as (Hlen & _ & _ & Hv).
  split; [exact Hlen|]. intros i p Hi.
  eexists. split; [apply (Hv i p Hi)|]. cbn [Key Value Expires].
  assert (Hi' : (i < length values)%nat) by (eapply lookup_lt_Some; exact Hi).
  assert (Hn : now E (ticks st + i) <= now E k) by (apply Hmono; lia).
  repeat split; lia.
Qed.

Lemma expiryLoop_stamps_witness :
  let E := testEnv decodeFixture in
  let out := expiryLoop E production emailPairs (initState "51da.uk") in
  exists p1, fst out !! 1%nat = Some p1
             /\ Expires p1 = slowClock 1 + 60 * Second
             /\ Expires p1 <= slowClock 2 + 60 * Second
             /\ slowClock 2 <= Expires p1.
Proof.
  intros E out. subst out.
  assert (Hmono : forall a b : nat, (a <= b)%nat -> now E a <= now E b)
    by (intros a b Hab; cbn [E testEnv now fxClock decodeFixture];
        unfold slowClock; lia).
  pose proof (expiryLoop_stamps E production emailPairs (initState "51da.uk")
                2%nat Hmono) as H.
  destruct (expiryLoop E production emailPairs (initState "51da.uk"))
    as [values1 st1].
  destruct H as [_ H]; [cbn; lia|].
  destruct (H 1%nat {| Key := "pref"; Value := "on";
                      Expires := 1700000000000000000 |} eq_refl)
    as (p1 & Hl & _ & _ & He & Hup & Hlo).
  exists p1. cbn [fst]. split; [exact Hl|].
  split; [rewrite He; reflexivity|]. split; [exact Hup|].
  apply Hlo. vm_compute. discriminate.
Defined.

(** ** The decode handler, end to end *)

Lemma decrypt_resp (E : Env) (c : Configuration) d st :
  resp (snd (decrypt E c d st)) = resp st.
Proof.
  unfold decrypt.
  destruct (url_Parse E _) as [u0|err]; [|reflexivity].
  destruct (http_Get E _) as [res|err]; [|reflexivity].
  destruct (negb (StatusCode res =? StatusOK)); reflexivity.
Qed.

Lemma encodeAsOWID_resp (E : Env) (r : Request) v st :
  resp (snd (encodeAsOWID E r v st)) = resp st.
Proof.
  unfold encodeAsOWID.
  destruct (GetCreator E (Host r)) as [[cr|] [e|]]; try reflexivity.
  destruct (Sign E cr (CreateOWID E cr v)) as [o1 [e|]]; reflexivity.
Qed.

Lemma owidLoop_resp (E : Env) (r : Request) values : forall st,
  resp (snd (owidLoop E r values st)) = resp st.
Proof.
  induction values as [|p rest IH]; intros st; [reflexivity|].
  cbn [owidLoop].
  destruct (String.eqb (Key p) "email").
  - pose proof (encodeAsOWID_resp E r (createSID (Value p)) st) as Hr.
    destruct (encodeAsOWID E r (createSID (Value p)) st) as [[value [e|]] st1];
      cbn [snd] in *; [exact Hr|].
    specialize (IH st1).
    destruct (owidLoop E r rest st1) as [[rest1 err1] st2]. cbn [snd] in *.
    congruence.
  - pose proof (encodeAsOWID_resp E r (list_ascii_of_string (Value p)) st) as Hr.
    destruct (encodeAsOWID E r (list_ascii_of_string (Value p)) st)
      as [[value [e|]] st1]; cbn [snd] in *; [exact Hr|].
    specialize (IH st1).
    destruct (owidLoop E r rest st1) as [[rest1 err1] st2]. cbn [snd] in *.
    congruence.
Qed.

Lemma expiryLoop_resp (E : Env) (c : Configuration) values : forall st,
  resp (snd (expiryLoop E c values st)) = resp st.
Proof.
  induction values as [|p rest IH]; intros st; [reflexivity|].
  cbn [expiryLoop]. specialize (IH (tick st)).
  destruct (expiryLoop E c rest (tick st)) as [rest1 st1]. exact IH.
Qed.

(** A response of [handlerDecodeAsJSON] with status 200, on a connection
    that takes the bytes, is the JSON encoding of the pairs the decoder
    returned, passed through the two loops; nothing else is in the body. *)
Lemma handlerDecodeAsJSON_ok (E : Env) (c : Configuration) (r : Request)
    (st : State) :
  rwStatus (resp st) = None ->
  rwWriteErr (resp st) = None ->
  rwStatus (resp (handlerDecodeAsJSON E c r st)) = Some StatusOK ->
  exists body st1 values values1 st2 js,
    decrypt E c (Values_Get "data" (Form r)) st = (inl body, st1)
    /\ DecodeResults E body = inl values
    /\ owidLoop E r values st1 = (values1, None, st2)
    /\ json_Marshal E (fst (expiryLoop E c values1 st2)) = inl js
    /\ rwBody (resp (handlerDecodeAsJSON E c r st))
       = rwBody (resp st) +:+ js +:+ nl.
Proof.
  intros Hs Hw. unfold handlerDecodeAsJSON.
  assert (Hne : forall err code st0,
             rwStatus (resp st0) = None -> code <> StatusOK ->
             rwStatus (resp (returnAPIError c err code st0)) = Some StatusOK ->
             False).
  { intros err code st0 H0 Hc H. rewrite returnAPIError_status in H by exact H0.
    congruence. }
  destruct (getAccessAllowed E r); cbn [negb];
    [|intros H; exfalso; eapply Hne; [exact Hs | | exact H]; discriminate].
  destruct (ParseFormErr r) as [err|];
    [intros H; exfalso; eapply Hne; [exact Hs | | exact H]; discriminate|].
  pose proof (decrypt_resp E c (Values_Get "data" (Form r)) st) as Hd.
  destruct (decrypt E c (Values_Get "data" (Form r)) st) as [[body|err] st1]
    eqn:Hdec;
    cbn [snd] in Hd;
    [|intros H; exfalso; eapply Hne; [| | exact H];
      [now rewrite Hd | discriminate]].
  destruct (DecodeResults E body) as [values|err] eqn:Hres;
    [|intros H; exfalso; eapply Hne; [| | exact H];
      [now rewrite Hd | discriminate]].
  pose proof (owidLoop_resp E r values st1) as Ho.
  destruct (owidLoop E r values st1) as [[values1 [err|]] st2] eqn:Hloop;
    cbn [snd] in Ho;
    [intros H; exfalso; eapply Hne; [| | exact H];
      [now rewrite Ho, Hd | discriminate]|].
  pose proof (expiryLoop_resp E c values1 st2) as He.
  destruct (expiryLoop E c values1 st2) as [values2 st3] eqn:Hexp;
    cbn [snd fst] in *.
  destruct (json_Marshal E values2) as [js|err] eqn:Hjs;
    [|intros H; exfalso; eapply Hne; [| | exact H];
      [now rewrite He, Ho, Hd | discriminate]].
  assert (Hr : resp st3 = resp st) by congruence.
  unfold Write, WriteHeader. rewrite Hr, Hs. cbn [rwWriteErr]. rewrite Hw.
  intros _. exists body, st1, values, values1, st2, js.
  repeat split; try assumption; try reflexivity.
  now rewrite Hexp.
Qed.

(** * Further properties of the code *)

(** ** The normalizer: what it never writes, and what it leaves alone *)

Lemma AppendRune_text r :
  isText r = true -> forallb textByte (AppendRune r) = true.
Proof.
  intros Ht. unfold AppendRune, MaxRune.
  assert (Hhi : forall z, 0x80 <= z < 256 -> textByte (byteA z) = true).
  { intros z Hz. unfold textByte. rewrite byteZ_byteA by lia.
    unfold isText, CR, LF, TAB. lia. }
  destruct ((0 <=? r) && (r <=? 0x7F)) eqn:C1.
  { cbn [forallb]. unfold textByte. rewrite byteZ_byteA by lia.
    now rewrite Ht. }
  destruct ((0 <=? r) && (r <=? 0x7FF)) eqn:C2.
  { cbn [forallb]. rewrite !Hhi by dlia. reflexivity. }
  destruct ((r <? 0) || (1114111 <? r) || (55296 <=? r) && (r <=? 57343)) eqn:C3.
  { reflexivity. }
  destruct (r <=? 0xFFFF) eqn:C4; cbn [forallb]; rewrite !Hhi by dlia;
    reflexivity.
Qed.

Lemma encodeRunes_text rs :
  Forall (fun r => isText r = true) rs ->
  forallb textByte (encodeRunes rs) = true.
Proof.
  induction 1 as [|r rs Hr _ IH]; [reflexivity|].
  cbn [encodeRunes flat_map]. rewrite forallb_app.
  rewrite (AppendRune_text r Hr). exact IH.
Qed.

(** X1: whatever the input, valid UTF-8 or not, the result of
    [removeHTMLWhiteSpace] holds no carriage return, line feed or tab. *)
Theorem removeHTMLWhiteSpace_no_control (h : string) :
  noControl (removeHTMLWhiteSpace h).
Proof.
  unfold noControl. rewrite removeHTMLWhiteSpace_runes.
  rewrite list_ascii_of_string_of_list_ascii.
  apply encodeRunes_text, keepRunes_isText.
Qed.

(** X2: a second pass may still remove spaces, a third never does: the
    result of two passes of [removeHTMLWhiteSpace] is unchanged by any
    further pass. *)
Theorem removeHTMLWhiteSpace_stable_after_two_passes (x : string) :
  let y := removeHTMLWhiteSpace (removeHTMLWhiteSpace x) in
  removeHTMLWhiteSpace y = y /\ noControl y.
Proof.
  split; [apply removeHTMLWhiteSpace_thrice|].
  apply removeHTMLWhiteSpace_no_control.
Qed.

(** [h] holds ASCII bytes only. *)
Definition isASCII (h : string) : Prop :=
  forallb (fun a => byteZ a <? 0x80) (list_ascii_of_string h) = true.

Lemma isASCII_Forall h :
  isASCII h -> Forall (fun a => byteZ a < 0x80) (list_ascii_of_string h).
Proof.
  unfold isASCII. intros H. apply List.Forall_forall. intros a Ha.
  rewrite forallb_forall in H. specialize (H a Ha). lia.
Qed.

Lemma keepRunes_sublist rs : forall p, keepRunes p rs `sublist_of` rs.
Proof.
  induction rs as [|r t IH]; intros p; cbn [keepRunes]; [constructor|].
  destruct (isText r && (negb (r =? SP) || negb p)).
  - apply sublist_skip, IH.
  - apply sublist_cons, IH.
Qed.

Lemma AppendRune_ascii a : byteZ a < 0x80 -> AppendRune (byteZ a) = [a].
Proof.
  intros H. pose proof (byteZ_range a) as Ha. unfold AppendRune.
  replace ((0 <=? byteZ a) && (byteZ a <=? 127)) with true by lia.
  now rewrite byteA_byteZ.
Qed.

Lemma encodeRunes_ascii (l : list ascii) :
  Forall (fun a => byteZ a < 0x80) l ->
  forall rs, rs `sublist_of` map byteZ l -> encodeRunes rs `sublist_of` l.
Proof.
  induction 1 as [|a l Ha _ IH]; intros rs H.
  - cbn [map] in H. apply sublist_nil_r in H. subst rs. constructor.
  - cbn [map] in H. apply sublist_cons_r in H as [H|(rs' & -> & H)].
    + apply sublist_cons, IH, H.
    + cbn [encodeRunes flat_map]. fold (encodeRunes rs').
      rewrite (AppendRune_ascii a Ha). cbn [app]. apply sublist_skip, IH, H.
Qed.

(** X3: on ASCII input [removeHTMLWhiteSpace] only removes bytes: the bytes
    of the result are a subsequence of the bytes of the input, in their
    order, so the result is never longer than the input. *)
Theorem removeHTMLWhiteSpace_ascii_sublist (h : string) :
  isASCII h ->
  list_ascii_of_string (removeHTMLWhiteSpace h)
    `sublist_of` list_ascii_of_string h
  /\ (String.length (removeHTMLWhiteSpace h) <= String.length h)%nat.
Proof.
  intros Ha. apply isASCII_Forall in Ha.
  assert (Hs : list_ascii_of_string (removeHTMLWhiteSpace h)
                 `sublist_of` list_ascii_of_string h).
  { rewrite removeHTMLWhiteSpace_runes, list_ascii_of_string_of_list_ascii.
    apply (encodeRunes_ascii _ Ha). unfold chars.
    rewrite (runesOf_ascii _ Ha). apply keepRunes_sublist. }
  split; [exact Hs|].
  apply sublist_length in Hs.
  assert (Hl : forall s : string, length (list_ascii_of_string s) = String.length s)
    by (intros s; induction s as [|a s IH]; cbn; [reflexivity | now rewrite IH]).
  now rewrite !Hl in Hs.
Qed.

Lemma removeHTMLWhiteSpace_ascii_sublist_witness :
  isASCII "a   b c"
  /\ (String.length (removeHTMLWhiteSpace "a   b c") <= String.length "a   b c")%nat.
Proof.
  split; [vm_compute; reflexivity|].
  apply (removeHTMLWhiteSpace_ascii_sublist "a   b c"). vm_compute. reflexivity.
Defined.

(** No space comes right after a space ([afterSP]: the bytes themselves come
    right after one). *)
Fixpoint spacedOnce (afterSP : bool) (l : list ascii) : bool :=
  match l with
  | [] => true
  | a :: t => negb ((byteZ a =? SP) && afterSP) && spacedOnce (byteZ a =? SP) t
  end.

Lemma squeezed_bytes l : forall p,
  forallb textByte l = true -> spacedOnce p l = true ->
  squeezed p (map byteZ l).
Proof.
  induction l as [|a t IH]; intros p Ht Hs; [exact I|].
  cbn [forallb spacedOnce map squeezed] in *.
  apply andb_prop in Ht as [Ha Ht]. apply andb_prop in Hs as [Hp Hs].
  split; [exact Ha|]. split; [now apply negb_true_iff in Hp|].
  apply IH; assumption.
Qed.

Lemma encodeRunes_bytes l :
  Forall (fun a => byteZ a < 0x80) l -> encodeRunes (map byteZ l) = l.
Proof.
  induction 1 as [|a l Ha _ IH]; [reflexivity|].
  cbn [map encodeRunes flat_map]. fold (encodeRunes (map byteZ l)).
  now rewrite (AppendRune_ascii a Ha), IH.
Qed.

(** X4: an ASCII string that holds no carriage return, line feed or tab and
    no two spaces in a row is returned as it is. *)
Theorem removeHTMLWhiteSpace_clean_unchanged (h : string) :
  isASCII h -> noControl h ->
  spacedOnce false (list_ascii_of_string h) = true ->
  removeHTMLWhiteSpace h = h.
Proof.
  intros Ha Hc Hs. apply isASCII_Forall in Ha.
  rewrite removeHTMLWhiteSpace_runes. unfold chars.
  rewrite (runesOf_ascii _ Ha).
  rewrite keepRunes_squeezed_id by (apply squeezed_bytes; assumption).
  rewrite (encodeRunes_bytes _ Ha). apply string_of_list_ascii_of_string.
Qed.

Lemma removeHTMLWhiteSpace_clean_unchanged_witness :
  removeHTMLWhiteSpace "<p> a b </p>" = "<p> a b </p>"%string.
Proof.
  apply (removeHTMLWhiteSpace_clean_unchanged "<p> a b </p>");
    vm_compute; reflexivity.
Defined.

(** ** The error helper on a response that has started *)

Lemma Write_body b w :
  rwWriteErr w = None -> rwBody (fst (Write b w)) = rwBody w +:+ b.
Proof.
  intros H. unfold Write.
  assert (He : rwWriteErr (WriteHeader StatusOK w) = None)
    by (unfold WriteHeader; destruct (rwStatus w); exact H).
  rewrite He. cbn [fst rwBody]. unfold WriteHeader.
  destruct (rwStatus w); reflexivity.
Qed.

Lemma http_Error_body msg code w :
  rwWriteErr w = None ->
  rwBody (http_Error msg code w) = rwBody w +:+ (msg +:+ nl).
Proof.
  intros H. unfold http_Error. rewrite Write_body.
  - unfold WriteHeader. cbn [HeaderSet rwStatus].
    destruct (rwStatus w); reflexivity.
  - unfold WriteHeader. cbn [HeaderSet rwStatus].
    destruct (rwStatus w); exact H.
Qed.

Lemma http_Error_started msg code w x :
  rwStatus w = Some x -> rwStatus (http_Error msg code w) = Some x.
Proof.
  intros H. unfold http_Error. apply Write_status.
  rewrite WriteHeader_status. cbn [HeaderSet rwStatus]. now rewrite H.
Qed.

Lemma WriteHeader_body code w : rwBody (WriteHeader code w) = rwBody w.
Proof. unfold WriteHeader. destruct (rwStatus w); reflexivity. Qed.

Lemma WriteHeader_err code w : rwWriteErr (WriteHeader code w) = rwWriteErr w.
Proof. unfold WriteHeader. destruct (rwStatus w); reflexivity. Qed.

Lemma http_Error_body_broken msg code w e :
  rwWriteErr w = Some e -> rwBody (http_Error msg code w) = rwBody w.
Proof.
  intros H. unfold http_Error, Write.
  rewrite !WriteHeader_err. cbn [HeaderSet rwWriteErr]. rewrite H.
  cbn [fst]. now rewrite !WriteHeader_body.
Qed.

(** X5: once a status has been written, [returnAPIError] cannot change it:
    the status stays what it was, whatever code the helper is given.  The
    error text and a line feed are appended to the body already written
    when the connection takes the write; when every write fails, as after
    the failed [Write] that makes a handler call the helper, the body stays
    as it was. *)
Theorem returnAPIError_after_status (c : Configuration) (err : error)
    (code : Z) (st : State) (x : Z) :
  rwStatus (resp st) = Some x ->
  rwStatus (resp (returnAPIError c err code st)) = Some x
  /\ rwBody (resp (returnAPIError c err code st))
     = match rwWriteErr (resp st) with
       | None => rwBody (resp st) +:+ (err +:+ nl)
       | Some _ => rwBody (resp st)
       end.
Proof.
  intros Hs. unfold returnAPIError.
  destruct (rwWriteErr (resp st)) as [e|] eqn:Hw;
    destruct (Debug c); cbn [println setResp resp]; split;
    first [apply http_Error_started; exact Hs
          | rewrite http_Error_body by exact Hw; reflexivity
          | rewrite (http_Error_body_broken _ _ _ e) by exact Hw;
            reflexivity].
Qed.

Definition startedState : State :=
  setResp (fst (Write "partial" newResponseWriter)) (initState "").

(** A response whose status line went out with a write that failed, as
    every later write will. *)
Definition cutState : State :=
  setResp (fst (Write "lost" {| rwHeader := ∅; rwStatus := None; rwBody := "";
                                rwWriteErr := Some "broken pipe"%string |}))
          (initState "").

Lemma returnAPIError_after_status_witness :
  (rwStatus (resp startedState) = Some StatusOK
   /\ rwStatus (resp (returnAPIError production "late" StatusInternalServerError
                        startedState)) = Some StatusOK
   /\ rwBody (resp (returnAPIError production "late" StatusInternalServerError
                      startedState)) = "partial" +:+ ("late" +:+ nl))
  /\ (rwStatus (resp cutState) = Some StatusOK
      /\ rwWriteErr (resp cutState) = Some "broken pipe"%string
      /\ rwStatus (resp (returnAPIError production "late"
                           StatusUnprocessableEntity cutState))
         = Some StatusOK
      /\ rwBody (resp (returnAPIError production "late"
                         StatusUnprocessableEntity cutState)) = EmptyString).
Proof.
  split.
  - split; [reflexivity|].
    apply (returnAPIError_after_status production "late"
             StatusInternalServerError startedState StatusOK).
    reflexivity.
  - split; [reflexivity|]. split; [reflexivity|].
    apply (returnAPIError_after_status production "late"
             StatusUnprocessableEntity cutState StatusOK).
    reflexivity.
Defined.

(** ** The URL composer: the cache, the parameters and the result *)

Lemma requestStorageOperation_request (E : Env) (c : Configuration)
    (q : Values) (fn : Values -> State -> Values * State) (st : State) :
  let u := {| uScheme := Scheme c; uHost := accessNode st;
              uPath := "/swift/api/v1/create";
              uRawQuery := Values_Encode
                             (Values_Set "table" "swan" (fst (fn q st))) |} in
  snd (requestStorageOperation E c q fn st) = emit (EvGet u) (snd (fn q st))
  /\ snd (fst (requestStorageOperation E c q fn st))
     = Values_Set "table" "swan" (fst (fn q st)).
Proof.
  unfold requestStorageOperation. destruct (fn q st) as [q1 st2].
  cbn [fst snd].
  destruct (http_Get E _) as [res|err];
    [destruct (negb (StatusCode res =? StatusOK)); [|destruct (Body res)]|];
    split; reflexivity.
Qed.

(** X6: with an access node in the cache, [createStorageOperationURL] asks
    the storage network nothing: the only thing it adds to what the
    injection function did is the request to the cached node, with the
    configured scheme. *)
Theorem createStorageOperationURL_cached (E : Env) (c : Configuration)
    (q : Values) (fn : Values -> State -> Values * State) (st : State) :
  accessNode st <> EmptyString ->
  checkAccessNode E c st = (None, st)
  /\ exists u,
       snd (createStorageOperationURL E c q fn st)
       = emit (EvGet u) (snd (fn q st))
       /\ uHost u = accessNode st /\ uScheme u = Scheme c
       /\ uPath u = "/swift/api/v1/create"%string.
Proof.
  intros Ha.
  assert (Hc : checkAccessNode E c st = (None, st))
    by (unfold checkAccessNode; now rewrite (String_eqb_false _ _ Ha)).
  split; [exact Hc|].
  unfold createStorageOperationURL. rewrite Hc.
  destruct (requestStorageOperation_request E c q fn st) as [Hr _].
  eexists. split; [exact Hr|]. repeat split.
Qed.

Lemma createStorageOperationURL_cached_witness :
  checkAccessNode (testEnv fetchFixture) production (initState "51da.uk")
  = (None, initState "51da.uk")
  /\ exists u,
       snd (createStorageOperationURL (testEnv fetchFixture) production
              fooRequest noInject (initState "51da.uk"))
       = emit (EvGet u) (initState "51da.uk")
       /\ uHost u = "51da.uk"%string.
Proof.
  destruct (createStorageOperationURL_cached (testEnv fetchFixture) production
              fooRequest noInject (initState "51da.uk"))
    as (Hc & u & Hu & Hh & _); [discriminate|].
  split; [exact Hc|]. exists u. split; [exact Hu | exact Hh].
Defined.

(** X7: every parameter other than [table] that the map holds after the
    injection function reaches the URL with all its values, in order,
    key and values escaped; nothing of it is dropped or merged. *)
Theorem requestStorageOperation_passes_parameters (E : Env)
    (c : Configuration) (q : Values)
    (fn : Values -> State -> Values * State) (st : State) (k : string) :
  k <> "table"%string ->
  exists u,
    last (events (snd (requestStorageOperation E c q fn st))) = Some (EvGet u)
    /\ queryParams k (uRawQuery u)
       = map (piece k) (default [] (fst (fn q st) !! k)).
Proof.
  intros Hk.
  destruct (requestStorageOperation_request E c q fn st) as [Hr _].
  eexists. rewrite Hr. split; [cbn [emit events]; apply last_snoc|].
  cbn [uRawQuery]. rewrite queryParams_Encode. unfold Values_Set.
  rewrite lookup_insert_ne by congruence. reflexivity.
Qed.

Lemma requestStorageOperation_passes_parameters_witness :
  exists u,
    last (events (snd (requestStorageOperation (testEnv fetchFixture)
                         production fooRequest noInject (initState "51da.uk"))))
    = Some (EvGet u)
    /\ queryParams "returnUrl" (uRawQuery u)
       = ["returnUrl=https%3A%2F%2Fpub.example%2F"%string].
Proof.
  destruct (requestStorageOperation_passes_parameters (testEnv fetchFixture)
              production fooRequest noInject (initState "51da.uk")
              "returnUrl") as (u & Hl & Hq); [discriminate|].
  exists u. split; [exact Hl|]. rewrite Hq. reflexivity.
Defined.

(** X8: [createStorageOperationURL] returns a string only together with a nil
    error, and then it is the body of a response with status 200, as it
    came; with an error the string is empty. *)
Theorem createStorageOperationURL_result (E : Env) (c : Configuration)
    (q : Values) (fn : Values -> State -> Values * State) (st : State) :
  let res := fst (fst (createStorageOperationURL E c q fn st)) in
  match snd res with
  | Some _ => fst res = EmptyString
  | None =>
    exists u response,
      last (events (snd (createStorageOperationURL E c q fn st)))
      = Some (EvGet u)
      /\ http_Get E (URL_String E u) = inl response
      /\ StatusCode response = StatusOK
      /\ Body response = inl (fst res)
  end.
Proof.
  unfold createStorageOperationURL.
  destruct (checkAccessNode E c st) as [[e|] st1]; [reflexivity|].
  unfold requestStorageOperation. destruct (fn q st1) as [q1 st2].
  destruct (http_Get E _) as [res|err] eqn:Hg; [|reflexivity].
  destruct (StatusCode res =? StatusOK) eqn:Hs; cbn [negb]; [|reflexivity].
  destruct (Body res) as [b|err] eqn:Hb; [|reflexivity].
  cbn [fst snd]. eexists _, res. split; [cbn [emit events]; apply last_snoc|].
  split; [exact Hg|]. split; [lia | exact Hb].
Qed.

(** X9: when the check fails (nothing cached, and the discovery returns an
    error with an empty node), nothing else happens: the injection function
    is not run, the parameters are returned untouched, no request is sent,
    and the cache stays empty, so that the next call asks the storage
    network again. *)
Theorem createStorageOperationURL_check_failed (E : Env) (c : Configuration)
    (q : Values) (fn : Values -> State -> Values * State) (st : State)
    (e : error) :
  accessNode st = EmptyString ->
  GetAccessNode E (Network c) = (EmptyString, Some e) ->
  createStorageOperationURL E c q fn st
  = ((EmptyString, Some (noAccessNodeError c)), q,
     emit (EvGetAccessNode (Network c)) st)
  /\ accessNode (snd (createStorageOperationURL E c q fn st)) = EmptyString.
Proof.
  intros Ha Hg. unfold createStorageOperationURL, checkAccessNode.
  rewrite Ha, Hg. cbn [String.eqb isNil negb andb snd emit accessNode].
  split; [reflexivity | exact Ha].
Qed.

Definition failedDiscovery : Fixture :=
  {| fxAllow := true; fxDiscovery := (EmptyString, Some "no nodes"%string);
     fxValid := true; fxGet := okGet "https://51db.uk/next";
     fxPairs := []; fxClock := fun n => 1600000000000000000 + Z.of_nat n |}.

Lemma createStorageOperationURL_check_failed_witness :
  createStorageOperationURL (testEnv failedDiscovery) production fooRequest
    noInject (initState "")
  = ((EmptyString, Some (noAccessNodeError production)), fooRequest,
     emit (EvGetAccessNode "swan") (initState "")).
Proof.
  apply (createStorageOperationURL_check_failed (testEnv failedDiscovery)
           production fooRequest noInject (initState "") "no nodes");
    reflexivity.
Defined.

(** X10: the cache works across calls: after a call that found nothing
    cached and got a node from the discovery, with an injection function
    that leaves the cache alone, the node is cached and the check of the next
    call asks the storage network nothing. *)
Theorem createStorageOperationURL_caches (E : Env) (c : Configuration)
    (q : Values) (fn : Values -> State -> Values * State) (st : State) :
  accessNode st = EmptyString ->
  fst (GetAccessNode E (Network c)) <> EmptyString ->
  (forall q0 s0, accessNode (snd (fn q0 s0)) = accessNode s0) ->
  let st' := snd (createStorageOperationURL E c q fn st) in
  accessNode st' = fst (GetAccessNode E (Network c))
  /\ checkAccessNode E c st' = (None, st').
Proof.
  intros Ha Hg Hfn st'.
  assert (Hst : accessNode st' = fst (GetAccessNode E (Network c))).
  { subst st'. unfold createStorageOperationURL, checkAccessNode. rewrite Ha.
    cbn [String.eqb]. destruct (GetAccessNode E (Network c)) as [an err].
    cbn [fst] in Hg. rewrite (String_eqb_false _ _ Hg), andb_false_r.
    destruct (requestStorageOperation_request E c q fn
                (setAccessNode an (emit (EvGetAccessNode (Network c)) st)))
      as [-> _].
    cbn [emit accessNode]. now rewrite Hfn. }
  split; [exact Hst|].
  unfold checkAccessNode. rewrite Hst, (String_eqb_false _ _ Hg). reflexivity.
Qed.

Lemma createStorageOperationURL_caches_witness :
  let st' := snd (createStorageOperationURL (testEnv fetchFixture) production
                    fooRequest noInject (initState "")) in
  accessNode st' = "51da.uk"%string
  /\ checkAccessNode (testEnv fetchFixture) production st' = (None, st').
Proof.
  apply (createStorageOperationURL_caches (testEnv fetchFixture) production
           fooRequest noInject (initState ""));
    [reflexivity | discriminate | reflexivity].
Defined.

(** ** The fetch handler: what it sends and what it answers *)

Lemma append_head_ne (a b : ascii) (s1 s2 t1 t2 : string) :
  a <> b -> String a s1 +:+ t1 <> String b s2 +:+ t2.
Proof.
  intros Hab H. rewrite !append_String in H. injection H as H _.
  contradiction.
Qed.

(** X11: the create-operation request of the fetch path carries, next to
    the table, one [cbid] parameter holding a fresh identifier and one empty
    [email] and [allow] parameter, all three keyed with the date three
    months after the one reading of the clock the injection makes. *)
Theorem fetch_request_parameters (E : Env) (c : Configuration) (q : Values)
    (st : State) :
  let t := dateInThreeMonths E (now E (ticks st)) in
  let st' := snd (requestStorageOperation E c q (fetchInject E) st) in
  exists u,
    last (events st') = Some (EvGet u)
    /\ queryParams ("cbid<" +:+ t) (uRawQuery u)
       = [piece ("cbid<" +:+ t) (uuid_New E (uuids st))]
    /\ queryParams ("email<" +:+ t) (uRawQuery u)
       = [piece ("email<" +:+ t) ""]
    /\ queryParams ("allow<" +:+ t) (uRawQuery u)
       = [piece ("allow<" +:+ t) ""]
    /\ queryParams "table" (uRawQuery u) = ["table=swan"%string]
    /\ ticks st' = S (ticks st) /\ uuids st' = S (uuids st).
Proof.
  intros t st'. subst st'.
  destruct (requestStorageOperation_request E c q (fetchInject E) st)
    as [Hr _].
  eexists. rewrite Hr. split; [cbn [emit events]; apply last_snoc|].
  cbn [uRawQuery]. rewrite !queryParams_Encode.
  unfold fetchInject, Values_Set. cbn [fst snd]. fold t.
  assert (Hce : "cbid<" +:+ t <> "email<" +:+ t)
    by (apply append_head_ne; discriminate).
  assert (Hca : "cbid<" +:+ t <> "allow<" +:+ t)
    by (apply append_head_ne; discriminate).
  assert (Hea : "email<" +:+ t <> "allow<" +:+ t)
    by (apply append_head_ne; discriminate).
  assert (Htc : "table"%string <> "cbid<" +:+ t)
    by (apply (append_head_ne "t" "c" "able" "bid<" "" t); discriminate).
  assert (Hte : "table"%string <> "email<" +:+ t)
    by (apply (append_head_ne "t" "e" "able" "mail<" "" t); discriminate).
  assert (Hta : "table"%string <> "allow<" +:+ t)
    by (apply (append_head_ne "t" "a" "able" "llow<" "" t); discriminate).
  split.
  { rewrite lookup_insert_ne by exact Htc.
    rewrite lookup_insert_ne by congruence.
    rewrite lookup_insert_ne by congruence.
    rewrite lookup_insert_eq. reflexivity. }
  split.
  { rewrite lookup_insert_ne by exact Hte.
    rewrite lookup_insert_ne by congruence.
    rewrite lookup_insert_eq. reflexivity. }
  split.
  { rewrite lookup_insert_ne by exact Hta.
    rewrite lookup_insert_eq. reflexivity. }
  split; [rewrite lookup_insert_eq; reflexivity|].
  split; reflexivity.
Qed.

Lemma setResp_resp st : setResp (resp st) st = st.
Proof. destruct st; reflexivity. Qed.

Lemma checkAccessNode_resp (E : Env) (c : Configuration) st :
  resp (snd (checkAccessNode E c st)) = resp st.
Proof.
  unfold checkAccessNode. destruct (String.eqb (accessNode st) "");
    [|reflexivity].
  destruct (GetAccessNode E (Network c)) as [an err].
  destruct (negb (isNil err) && String.eqb an ""); reflexivity.
Qed.

Lemma createStorageOperationURL_fetch_resp (E : Env) (c : Configuration) q st :
  resp (snd (createStorageOperationURL E c q (fetchInject E) st)) = resp st.
Proof.
  unfold createStorageOperationURL.
  pose proof (checkAccessNode_resp E c st) as Hc.
  destruct (checkAccessNode E c st) as [[e|] st1]; cbn [snd] in *;
    [exact Hc|].
  destruct (requestStorageOperation_request E c q (fetchInject E) st1)
    as [-> _].
  exact Hc.
Qed.

Lemma Write_ok b w :
  rwStatus w = None -> rwWriteErr w = None ->
  Write b w
  = ({| rwHeader := rwHeader w; rwStatus := Some StatusOK;
        rwBody := rwBody w +:+ b; rwWriteErr := None |}, None).
Proof.
  intros Hs Hw. unfold Write, WriteHeader. rewrite Hs. cbn [rwWriteErr].
  rewrite Hw. reflexivity.
Qed.

(** X12: a fetch request that passes every step is answered with status
    200, the URL the access node returned as the whole of what is added to
    the body, and a [Content-Length] header that is the length of that URL
    in bytes, with the content type and cache headers set. *)
Theorem handlerFetch_success (E : Env) (c : Configuration) (r : Request)
    (st : State) (q q1 q2 : Values) (ok : bool) (u : string) (st2 : State) :
  getAccessAllowed E r = true ->
  ParseFormErr r = None ->
  url_ParseQuery E (Values_Encode (Form r)) = (q, None) ->
  validateCommon E r q (resp st) = (ok, q1, resp st) ->
  createStorageOperationURL E c q1 (fetchInject E) st = ((u, None), q2, st2) ->
  rwStatus (resp st) = None ->
  rwWriteErr (resp st) = None ->
  let w := resp (handlerFetch E c r st) in
  rwStatus w = Some StatusOK
  /\ rwBody w = rwBody (resp st) +:+ u
  /\ rwHeader w !! "Content-Length"%string = Some (pretty (String.length u))
  /\ rwHeader w !! "Content-Type"%string = Some "text/plain; charset=utf-8"%string
  /\ rwHeader w !! "Cache-Control"%string = Some "no-cache"%string
  /\ events (handlerFetch E c r st) = events st2.
Proof.
  intros Ha Hp Hq Hv Hc Hs Hw w. subst w. unfold handlerFetch.
  rewrite Ha, Hp, Hq, Hv, setResp_resp, Hc. cbn [negb].
  pose proof (createStorageOperationURL_fetch_resp E c q1 st) as Hr.
  rewrite Hc in Hr. cbn [snd] in Hr.
  rewrite Write_ok by (cbn [HeaderSet rwStatus rwWriteErr]; congruence).
  cbn [setResp resp rwStatus rwBody rwHeader events HeaderSet]. rewrite Hr.
  split; [reflexivity|]. split; [reflexivity|].
  split; [apply lookup_insert_eq|].
  split.
  - rewrite lookup_insert_ne by discriminate.
    rewrite lookup_insert_ne by discriminate.
    apply lookup_insert_eq.
  - split; [|reflexivity].
    rewrite lookup_insert_ne by discriminate. apply lookup_insert_eq.
Qed.

Lemma handlerFetch_success_witness :
  let st := handlerFetch (testEnv fetchFixture) production fetchRequest
              (initState "") in
  rwStatus (resp st) = Some StatusOK
  /\ rwBody (resp st) = "https://51db.uk/next"%string
  /\ rwHeader (resp st) !! "Content-Length"%string = Some "20"%string.
Proof.
  assert (Hres : fst (fst (createStorageOperationURL (testEnv fetchFixture)
                             production (parseQuery (Values_Encode fooRequest))
                             (fetchInject (testEnv fetchFixture))
                             (initState "")))
                 = ("https://51db.uk/next"%string, None))
    by (vm_compute; reflexivity).
  destruct (createStorageOperationURL (testEnv fetchFixture) production
              (parseQuery (Values_Encode fooRequest))
              (fetchInject (testEnv fetchFixture)) (initState ""))
    as [[res q2] st2] eqn:Hc.
  cbn [fst] in Hres. subst res.
  pose proof (handlerFetch_success (testEnv fetchFixture) production
                fetchRequest (initState "")
                (parseQuery (Values_Encode fooRequest))
                (parseQuery (Values_Encode fooRequest)) q2 true
                "https://51db.uk/next" st2
                eq_refl eq_refl eq_refl eq_refl Hc eq_refl eq_refl)
    as (H1 & H2 & H3 & _).
  repeat split; assumption.
Defined.

(** X13: a request whose form cannot be parsed is answered by both handlers
    with status 500 through the error helper, and nothing else happens: no
    request is sent, no discovery, nothing signed. *)
Theorem unparsed_form_stops (E : Env) (c : Configuration) (r : Request)
    (st : State) (e : error) :
  getAccessAllowed E r = true ->
  ParseFormErr r = Some e ->
  rwStatus (resp st) = None ->
  let d := handlerDecodeAsJSON E c r st in
  let f := handlerFetch E c r st in
  (d = returnAPIError c e StatusInternalServerError st
   /\ rwStatus (resp d) = Some StatusInternalServerError
   /\ events d = events st)
  /\ (f = returnAPIError c e StatusInternalServerError st
      /\ rwStatus (resp f) = Some StatusInternalServerError
      /\ events f = events st).
Proof.
  intros Ha Hp Hs d f. subst d f. unfold handlerDecodeAsJSON, handlerFetch.
  rewrite Ha, Hp. cbn [negb].
  pose proof (returnAPIError_events c e StatusInternalServerError st)
    as (He & _).
  pose proof (returnAPIError_status c e StatusInternalServerError st Hs).
  repeat split; assumption.
Qed.

Definition brokenRequest : Request :=
  {| Host := "swan.example"; Form := ∅;
     ParseFormErr := Some "invalid URL escape"%string |}.

Lemma unparsed_form_stops_witness :
  rwStatus (resp (handlerDecodeAsJSON (testEnv fetchFixture) production
                    brokenRequest (initState "")))
  = Some StatusInternalServerError
  /\ events (handlerFetch (testEnv fetchFixture) production brokenRequest
               (initState "")) = [].
Proof.
  destruct (unparsed_form_stops (testEnv fetchFixture) production
              brokenRequest (initState "") "invalid URL escape"
              eq_refl eq_refl eq_refl)
    as ((_ & Hd & _) & (_ & _ & Hf)).
  split; [exact Hd | exact Hf].
Defined.

(** ** The decode path: the decrypt request *)

(** X14: [decrypt] sends nothing when the base URL does not parse;
    otherwise it sends one request, to the decrypt endpoint of the host of
    that URL, whose query holds exactly one [data] parameter, the blob, and
    exactly one [accessKey] parameter, the configured key, whatever query
    the base URL had. *)
Theorem decrypt_request (E : Env) (c : Configuration) (d : string)
    (st : State) :
  match url_Parse E (Scheme c +:+ "://" +:+ accessNode st) with
  | inr e => decrypt E c d st = (inr e, st)
  | inl u0 =>
    exists u,
      snd (decrypt E c d st) = emit (EvGet u) st
      /\ uScheme u = uScheme u0 /\ uHost u = uHost u0
      /\ uPath u = "/swift/api/v1/decrypt"%string
      /\ queryParams "data" (uRawQuery u) = [piece "data" d]
      /\ queryParams "accessKey" (uRawQuery u)
         = [piece "accessKey" (AccessKey c)]
  end.
Proof.
  unfold decrypt.
  destruct (url_Parse E (Scheme c +:+ "://" +:+ accessNode st)) as [u0|e];
    [|reflexivity].
  eexists. split.
  { destruct (http_Get E _) as [res|err];
      [destruct (negb (StatusCode res =? StatusOK))|]; reflexivity. }
  cbn [uScheme uHost uPath uRawQuery]. repeat split.
  - rewrite queryParams_Encode. unfold Values_Set.
    rewrite lookup_insert_ne by discriminate.
    rewrite lookup_insert_eq. reflexivity.
  - rewrite queryParams_Encode. unfold Values_Set.
    rewrite lookup_insert_eq. reflexivity.
Qed.

(** X15: [decrypt] returns bytes only when the access node answered with
    status 200, and then they are the body of that response as it came;
    every other outcome is an error. *)
Theorem decrypt_result (E : Env) (c : Configuration) (d : string)
    (st : State) :
  match fst (decrypt E c d st) with
  | inl body =>
    exists u response,
      last (events (snd (decrypt E c d st))) = Some (EvGet u)
      /\ http_Get E (URL_String E u) = inl response
      /\ StatusCode response = StatusOK
      /\ Body response = inl body
  | inr err =>
    (exists e, url_Parse E (Scheme c +:+ "://" +:+ accessNode st) = inr e
               /\ err = e /\ snd (decrypt E c d st) = st)
    \/ (exists u, last (events (snd (decrypt E c d st))) = Some (EvGet u)
                  /\ match http_Get E (URL_String E u) with
                     | inr e => err = e
                     | inl response =>
                       err = newResponseError (URL_String E u) response
                       \/ (StatusCode response = StatusOK
                           /\ Body response = inr err)
                     end)
  end.
Proof.
  unfold decrypt.
  destruct (url_Parse E (Scheme c +:+ "://" +:+ accessNode st)) as [u0|e].
  2:{ cbn [fst snd]. left. exists e. repeat split. }
  set (u := {| uScheme := uScheme u0; uHost := uHost u0;
               uPath := "/swift/api/v1/decrypt"; uRawQuery := _ |}).
  assert (Hl : last (events (emit (EvGet u) st)) = Some (EvGet u))
    by (cbn [emit events]; apply last_snoc).
  destruct (http_Get E (URL_String E u)) as [res|err] eqn:Hg.
  - destruct (StatusCode res =? StatusOK) eqn:Hs; cbn [negb fst snd].
    + destruct (Body res) as [body|err] eqn:Hb.
      * exists u, res. repeat split; [exact Hl | exact Hg | lia | exact Hb].
      * right. exists u. split; [exact Hl|]. rewrite Hg. right.
        split; [lia | exact Hb].
    + right. exists u. split; [exact Hl|]. rewrite Hg. now left.
  - cbn [fst snd]. right. exists u. split; [exact Hl|]. now rewrite Hg.
Qed.

(** ** The decode path: what the loops do to the pairs and to the world *)

Lemma encodeAsOWID_state (E : Env) (r : Request) v st :
  (snd (encodeAsOWID E r v st) = st
   /\ snd (fst (encodeAsOWID E r v st)) <> None)
  \/ snd (encodeAsOWID E r v st) = emit (EvSign (Host r) v) st.
Proof.
  unfold encodeAsOWID.
  destruct (GetCreator E (Host r)) as [[cr|] [e|]];
    try (left; split; [reflexivity | discriminate]).
  right. destruct (Sign E cr (CreateOWID E cr v)) as [o1 [e|]]; reflexivity.
Qed.

(** The key a pair leaves the first loop with. *)
Definition outKey (k : string) : string :=
  if String.eqb k "email" then "sid"%string else k.

(** X16: the first loop of [handlerDecodeAsJSON] hands payloads over for
    signing in the order of the pairs and stops at the first error: what it
    signed are the payloads of a prefix of the pairs (all of them when it
    ends without an error), it neither adds nor drops a pair, and it touches
    neither the cached access node nor the clock. *)
Theorem owidLoop_trace (E : Env) (r : Request) (values : list Pair)
    (st : State) :
  let '(values1, err, st1) := owidLoop E r values st in
  exists k : nat,
    (k <= length values)%nat
    /\ events st1
       = events st ++ map (fun p => EvSign (Host r) (payloadOf p)) (take k values)
    /\ (err = None -> k = length values)
    /\ length values1 = length values
    /\ accessNode st1 = accessNode st /\ ticks st1 = ticks st.
Proof.
  revert st. induction values as [|p rest IH]; intros st.
  - exists 0%nat. cbn [owidLoop length take map].
    rewrite app_nil_r. repeat split; lia.
  - cbn [owidLoop].
    assert (Hp : (if String.eqb (Key p) "email"
                  then ("sid"%string, encodeAsOWID E r (createSID (Value p)) st)
                  else (Key p, encodeAsOWID E r (list_ascii_of_string (Value p)) st))
                 = (outKey (Key p), encodeAsOWID E r (payloadOf p) st))
      by (unfold outKey, payloadOf; destruct (String.eqb (Key p) "email");
          reflexivity).
    rewrite Hp. clear Hp.
    pose proof (encodeAsOWID_state E r (payloadOf p) st) as Hs.
    destruct (encodeAsOWID E r (payloadOf p) st) as [[value err] st1].
    cbn [fst snd] in Hs.
    destruct err as [e|].
    + destruct Hs as [[-> _]| ->].
      * exists 0%nat. cbn [take map length]. rewrite app_nil_r.
        repeat split; try lia. discriminate.
      * exists 1%nat. cbn [take map length emit events accessNode ticks].
        repeat split; try lia. discriminate.
    + destruct Hs as [[_ Hn]| ->]; [congruence|].
      specialize (IH (emit (EvSign (Host r) (payloadOf p)) st)).
      destruct (owidLoop E r rest _) as [[rest1 err1] st2].
      destruct IH as (k & Hk & He & Hn & Hl & Ha & Ht).
      exists (S k). cbn [take map length emit events accessNode ticks] in *.
      rewrite He, <- app_assoc. cbn [app].
      repeat split; try lia; try assumption.
      intros H. now rewrite (Hn H).
Qed.

Lemma owidLoop_keys (E : Env) (r : Request) values : forall st values1 st1,
  owidLoop E r values st = (values1, None, st1) ->
  map Key values1 = map outKey (map Key values)
  /\ map Expires values1 = map Expires values.
Proof.
  induction values as [|p rest IH]; intros st values1 st1 H.
  - inversion H; subst. split; reflexivity.
  - apply owidLoop_step in H as (value & rest1 & _ & -> & Hl).
    apply IH in Hl as [Hk He]. cbn [map Key Expires].
    rewrite Hk, He. split; reflexivity.
Qed.

Lemma expiryLoop_keys (E : Env) (c : Configuration) values : forall st,
  map Key (fst (expiryLoop E c values st)) = map Key values
  /\ map Value (fst (expiryLoop E c values st)) = map Value values.
Proof.
  induction values as [|p rest IH]; intros st; [split; reflexivity|].
  cbn [expiryLoop]. specialize (IH (tick st)).
  destruct (expiryLoop E c rest (tick st)) as [rest1 st1].
  cbn [fst map Key Value] in *. destruct IH as [-> ->]. split; reflexivity.
Qed.

Lemma outKey_not_email k : outKey k <> "email"%string.
Proof.
  unfold outKey. destruct (String.eqb_spec k "email") as [->|H];
    [discriminate | exact H].
Qed.

(** X17: a response of [handlerDecodeAsJSON] with status 200, on a
    connection that takes the bytes, encodes as many pairs as the decoder
    returned, in the same order, with the same keys except that [email] has
    become [sid]; no encoded pair is keyed [email]. *)
Theorem handlerDecodeAsJSON_keys (E : Env) (c : Configuration) (r : Request)
    (st : State) :
  rwStatus (resp st) = None ->
  rwWriteErr (resp st) = None ->
  rwStatus (resp (handlerDecodeAsJSON E c r st)) = Some StatusOK ->
  exists body values out js,
    fst (decrypt E c (Values_Get "data" (Form r)) st) = inl body
    /\ DecodeResults E body = inl values
    /\ json_Marshal E out = inl js
    /\ rwBody (resp (handlerDecodeAsJSON E c r st))
       = rwBody (resp st) +:+ js +:+ nl
    /\ length out = length values
    /\ map Key out = map outKey (map Key values)
    /\ Forall (fun p => Key p <> "email"%string) out.
Proof.
  intros Hs Hw H200.
  destruct (handlerDecodeAsJSON_ok E c r st Hs Hw H200)
    as (body & st1 & values & values1 & st2 & js & Hd & Hr & Hl & Hj & Hb).
  exists body, values, (fst (expiryLoop E c values1 st2)), js.
  rewrite Hd. split; [reflexivity|]. split; [exact Hr|].
  split; [exact Hj|]. split; [exact Hb|].
  destruct (owidLoop_keys _ _ _ _ _ _ Hl) as [Hk _].
  destruct (expiryLoop_keys E c values1 st2) as [Hk2 _].
  assert (Hkeys : map Key (fst (expiryLoop E c values1 st2))
                  = map outKey (map Key values)) by congruence.
  split.
  { rewrite <- (length_map Key), Hkeys, !length_map. reflexivity. }
  split; [exact Hkeys|].
  apply List.Forall_forall. intros p Hp.
  assert (Hin : In (Key p) (map outKey (map Key values)))
    by (rewrite <- Hkeys; now apply in_map).
  apply in_map_iff in Hin as (k & <- & _). apply outKey_not_email.
Qed.

Lemma handlerDecodeAsJSON_keys_witness :
  exists out js,
    json_Marshal (testEnv decodeFixture) out = inl js
    /\ map Key out = ["sid"%string; "pref"%string].
Proof.
  destruct (handlerDecodeAsJSON_keys (testEnv decodeFixture) production
              decodeRequest (initState "51da.uk") eq_refl eq_refl)
    as (body & values & out & js & _ & Hr & Hj & _ & _ & Hk & _).
  - vm_compute. reflexivity.
  - exists out, js. split; [exact Hj|]. rewrite Hk.
    cbn [testEnv DecodeResults] in Hr. injection Hr as <-. reflexivity.
Defined.

(** ** The decode handler: its calls, its status and a broken connection *)

Definition isGet (e : Event) : bool :=
  match e with EvGet _ => true | _ => false end.

Definition isSign (e : Event) : bool :=
  match e with EvSign _ _ => true | _ => false end.

Lemma decrypt_events (E : Env) (c : Configuration) d st :
  exists gets,
    events (snd (decrypt E c d st)) = events st ++ gets
    /\ (length gets <= 1)%nat /\ forallb isGet gets = true
    /\ accessNode (snd (decrypt E c d st)) = accessNode st.
Proof.
  pose proof (decrypt_request E c d st) as H.
  destruct (url_Parse E (Scheme c +:+ "://" +:+ accessNode st)) as [u0|e].
  - destruct H as (u & -> & _). exists [EvGet u]. repeat split. cbn. lia.
  - rewrite H. exists []. cbn [snd]. rewrite app_nil_r. repeat split. cbn. lia.
Qed.

Lemma expiryLoop_events (E : Env) (c : Configuration) values st :
  events (snd (expiryLoop E c values st)) = events st
  /\ accessNode (snd (expiryLoop E c values st)) = accessNode st.
Proof.
  revert st. induction values as [|p rest IH]; intros st;
    [split; reflexivity|].
  cbn [expiryLoop]. specialize (IH (tick st)).
  destruct (expiryLoop E c rest (tick st)) as [rest1 st1]. exact IH.
Qed.

Lemma signs_isSign (host : string) (l : list Pair) :
  forallb isSign (map (fun p => EvSign host (payloadOf p)) l) = true.
Proof. induction l as [|p l IH]; [reflexivity | exact IH]. Qed.

(** X18: [handlerDecodeAsJSON] never asks the storage network for the
    access node and never changes the cached one: whatever the request, what
    it does to the world outside is at most one GET (the decrypt request)
    followed by signing requests only. *)
Theorem handlerDecodeAsJSON_events (E : Env) (c : Configuration)
    (r : Request) (st : State) :
  exists gets signs,
    events (handlerDecodeAsJSON E c r st) = events st ++ gets ++ signs
    /\ (length gets <= 1)%nat
    /\ forallb isGet gets = true
    /\ forallb isSign signs = true
    /\ accessNode (handlerDecodeAsJSON E c r st) = accessNode st.
Proof.
  assert (Hnone : forall err code,
             exists gets signs,
               events (returnAPIError c err code st) = events st ++ gets ++ signs
               /\ (length gets <= 1)%nat /\ forallb isGet gets = true
               /\ forallb isSign signs = true
               /\ accessNode (returnAPIError c err code st) = accessNode st).
  { intros err code. exists [], [].
    destruct (returnAPIError_events c err code st) as (-> & _ & _ & ->).
    rewrite app_nil_r. repeat split. cbn. lia. }
  unfold handlerDecodeAsJSON.
  destruct (getAccessAllowed E r); cbn [negb]; [|apply Hnone].
  destruct (ParseFormErr r) as [err|]; [apply Hnone|].
  destruct (decrypt_events E c (Values_Get "data" (Form r)) st)
    as (gets & Hg & Hlen & Hall & Ha).
  destruct (decrypt E c (Values_Get "data" (Form r)) st) as [[body|err] st1];
    cbn [snd] in *.
  2:{ exists gets, [].
      destruct (returnAPIError_events c err StatusUnprocessableEntity st1)
        as (-> & _ & _ & ->).
      rewrite app_nil_r. repeat split; assumption. }
  destruct (DecodeResults E body) as [values|err].
  2:{ exists gets, [].
      destruct (returnAPIError_events c err StatusUnprocessableEntity st1)
        as (-> & _ & _ & ->).
      rewrite app_nil_r. repeat split; assumption. }
  pose proof (owidLoop_trace E r values st1) as Ht.
  destruct (owidLoop E r values st1) as [[values1 err] st2].
  destruct Ht as (k & _ & He & _ & _ & Ha2 & _).
  set (signs := map (fun p => EvSign (Host r) (payloadOf p)) (take k values)) in *.
  assert (Hsigns : forallb isSign signs = true) by apply signs_isSign.
  assert (Hev : events st2 = events st ++ gets ++ signs)
    by (rewrite He, Hg, <- app_assoc; reflexivity).
  assert (Hacc : accessNode st2 = accessNode st) by congruence.
  destruct err as [e|].
  { exists gets, signs.
    destruct (returnAPIError_events c e StatusInternalServerError st2)
      as (-> & _ & _ & ->).
    repeat split; assumption. }
  destruct (expiryLoop_events E c values1 st2) as [He3 Ha3].
  destruct (expiryLoop E c values1 st2) as [values2 st3]. cbn [snd] in *.
  assert (Hev3 : events st3 = events st ++ gets ++ signs) by congruence.
  assert (Hacc3 : accessNode st3 = accessNode st) by congruence.
  destruct (json_Marshal E values2) as [js|e].
  2:{ exists gets, signs.
      destruct (returnAPIError_events c e StatusUnprocessableEntity st3)
        as (-> & _ & _ & ->).
      repeat split; assumption. }
  destruct (Write (js +:+ nl) (resp st3)) as [w1 [e|]].
  - exists gets, signs.
    destruct (returnAPIError_events c e StatusUnprocessableEntity
                (setResp w1 st3)) as (-> & _ & _ & ->).
    cbn [setResp events accessNode]. repeat split; assumption.
  - exists gets, signs. cbn [setResp events accessNode].
    repeat split; assumption.
Qed.

Lemma returnAPIError_started (c : Configuration) err code st x :
  rwStatus (resp st) = Some x ->
  rwStatus (resp (returnAPIError c err code st)) = Some x.
Proof.
  intros H. unfold returnAPIError.
  destruct (Debug c); cbn [println setResp resp];
    apply http_Error_started; exact H.
Qed.

(** X19: [handlerDecodeAsJSON] always answers, and with one of four
    statuses: 200, 401 (denied), 422 (decrypt, decode or encoding failed) or
    500 (the form could not be parsed or a value could not be signed). *)
Theorem handlerDecodeAsJSON_status (E : Env) (c : Configuration)
    (r : Request) (st : State) :
  rwStatus (resp st) = None ->
  exists code,
    rwStatus (resp (handlerDecodeAsJSON E c r st)) = Some code
    /\ (code = StatusOK \/ code = StatusUnauthorized
        \/ code = StatusUnprocessableEntity
        \/ code = StatusInternalServerError).
Proof.
  intros Hs. unfold handlerDecodeAsJSON.
  destruct (getAccessAllowed E r); cbn [negb].
  2:{ eexists. split; [apply returnAPIError_status, Hs | tauto]. }
  destruct (ParseFormErr r) as [err|].
  { eexists. split; [apply returnAPIError_status, Hs | tauto]. }
  pose proof (decrypt_resp E c (Values_Get "data" (Form r)) st) as Hd.
  destruct (decrypt E c (Values_Get "data" (Form r)) st) as [[body|err] st1];
    cbn [snd] in Hd.
  2:{ eexists. split; [apply returnAPIError_status; congruence | tauto]. }
  destruct (DecodeResults E body) as [values|err].
  2:{ eexists. split; [apply returnAPIError_status; congruence | tauto]. }
  pose proof (owidLoop_resp E r values st1) as Ho.
  destruct (owidLoop E r values st1) as [[values1 [err|]] st2];
    cbn [snd] in Ho.
  { eexists. split; [apply returnAPIError_status; congruence | tauto]. }
  pose proof (expiryLoop_resp E c values1 st2) as He.
  destruct (expiryLoop E c values1 st2) as [values2 st3]; cbn [snd] in He.
  destruct (json_Marshal E values2) as [js|err].
  2:{ eexists. split; [apply returnAPIError_status; congruence | tauto]. }
  assert (H3 : rwStatus (resp st3) = None) by congruence.
  exists StatusOK. split; [|tauto].
  unfold Write.
  assert (Hh : rwStatus (WriteHeader StatusOK (resp st3)) = Some StatusOK)
    by (rewrite WriteHeader_status, H3; reflexivity).
  destruct (rwWriteErr (WriteHeader StatusOK (resp st3))) as [e|].
  - apply returnAPIError_started. exact Hh.
  - cbn [setResp resp rwStatus]. exact Hh.
Qed.

Lemma handlerDecodeAsJSON_status_witness :
  exists code,
    rwStatus (resp (handlerDecodeAsJSON (testEnv deniedFixture) production
                      decodeRequest (initState ""))) = Some code
    /\ (code = StatusOK \/ code = StatusUnauthorized
        \/ code = StatusUnprocessableEntity
        \/ code = StatusInternalServerError).
Proof.
  apply (handlerDecodeAsJSON_status (testEnv deniedFixture) production
           decodeRequest (initState "")).
  reflexivity.
Defined.

(** X20: when everything up to the encoding succeeds but the write of the
    JSON to the connection fails, the status of the response is 200 all the
    same: the status line went out with the failed write, so the 422 the
    handler then asks for is not used, and nothing is added to the body. *)
Theorem handlerDecodeAsJSON_write_fails (E : Env) (c : Configuration)
    (r : Request) (st st1 st2 : State) (e : error) (body js : string)
    (values values1 : list Pair) :
  rwStatus (resp st) = None ->
  rwWriteErr (resp st) = Some e ->
  getAccessAllowed E r = true ->
  ParseFormErr r = None ->
  decrypt E c (Values_Get "data" (Form r)) st = (inl body, st1) ->
  DecodeResults E body = inl values ->
  owidLoop E r values st1 = (values1, None, st2) ->
  json_Marshal E (fst (expiryLoop E c values1 st2)) = inl js ->
  rwStatus (resp (handlerDecodeAsJSON E c r st)) = Some StatusOK
  /\ rwBody (resp (handlerDecodeAsJSON E c r st)) = rwBody (resp st).
Proof.
  intros Hs Hw Ha Hp Hd Hr Hl Hj. unfold handlerDecodeAsJSON.
  rewrite Ha, Hp, Hd, Hr, Hl. cbn [negb].
  pose proof (decrypt_resp E c (Values_Get "data" (Form r)) st) as Hd'.
  rewrite Hd in Hd'. cbn [snd] in Hd'.
  pose proof (owidLoop_resp E r values st1) as Ho.
  rewrite Hl in Ho. cbn [snd] in Ho.
  pose proof (expiryLoop_resp E c values1 st2) as He.
  destruct (expiryLoop E c values1 st2) as [values2 st3].
  cbn [fst snd] in *. rewrite Hj.
  assert (H3 : resp st3 = resp st) by congruence.
  unfold Write. rewrite H3.
  assert (Hh : rwStatus (WriteHeader StatusOK (resp st)) = Some StatusOK)
    by (rewrite WriteHeader_status, Hs; reflexivity).
  assert (Hwe : rwWriteErr (WriteHeader StatusOK (resp st)) = Some e)
    by (unfold WriteHeader; rewrite Hs; exact Hw).
  rewrite Hwe. split.
  - apply returnAPIError_started. exact Hh.
  - unfold returnAPIError.
    destruct (Debug c); cbn [println setResp resp];
      rewrite (http_Error_body_broken _ _ _ e)
        by (cbn [HeaderSet rwWriteErr]; exact Hwe);
      cbn [HeaderSet rwBody]; apply WriteHeader_body.
Qed.

Definition brokenState : State :=
  setResp {| rwHeader := ∅; rwStatus := None; rwBody := "";
             rwWriteErr := Some "broken pipe"%string |}
          (initState "51da.uk").

Lemma handlerDecodeAsJSON_write_fails_witness :
  rwStatus (resp (handlerDecodeAsJSON (testEnv decodeFixture) production
                    decodeRequest brokenState)) = Some StatusOK
  /\ rwBody (resp (handlerDecodeAsJSON (testEnv decodeFixture) production
                     decodeRequest brokenState)) = EmptyString.
Proof.
  destruct (decrypt (testEnv decodeFixture) production
              (Values_Get "data" (Form decodeRequest)) brokenState)
    as [[body|err] st1] eqn:Hd.
  2:{ exfalso. vm_compute in Hd. discriminate Hd. }
  destruct (owidLoop (testEnv decodeFixture) decodeRequest emailPairs st1)
    as [[values1 [e|]] st2] eqn:Hl.
  { exfalso. unfold decrypt in Hd. cbn in Hd. injection Hd as _ <-.
    vm_compute in Hl. discriminate Hl. }
  apply (handlerDecodeAsJSON_write_fails (testEnv decodeFixture) production
           decodeRequest brokenState st1 st2 "broken pipe" body
           (String.concat "" (map showPair
              (fst (expiryLoop (testEnv decodeFixture) production values1 st2))))
           emailPairs values1);
    [reflexivity | reflexivity | reflexivity | reflexivity | exact Hd
    | reflexivity | exact Hl | reflexivity].
Defined.

(** ** The timeout as a duration *)

(** X21: [time.Second * s.config.Timeout] is the timeout in nanoseconds as
    long as the configured number of seconds is within 9223372036 either
    way; it is a signed 64-bit number in every case, so that a larger
    timeout wraps round instead of growing. *)
Theorem timeoutDuration_range (c : Configuration) :
  (- 2 ^ 63 <= timeoutDuration c < 2 ^ 63)
  /\ (- 9223372036 <= Timeout c <= 9223372036 ->
      timeoutDuration c = 1000000000 * Timeout c).
Proof.
  unfold timeoutDuration, wrap64, Second. split.
  - pose proof (Z.mod_pos_bound (1000000000 * Timeout c + 2 ^ 63) (2 ^ 64)).
    lia.
  - intros H. rewrite Z.mod_small; lia.
Qed.

Lemma timeoutDuration_range_witness :
  timeoutDuration production = 60000000000.
Proof.
  destruct (timeoutDuration_range production) as [_ H].
  rewrite H; [reflexivity | cbn; lia].
Defined.

(** ** The order of the expiries *)

(** X22: the expiries the second loop writes follow the clock: with a
    clock that does not run backwards, a pair never expires before a pair
    that comes earlier in the list, and the loop reads the clock exactly
    once per pair. *)
Theorem expiryLoop_ordered (E : Env) (c : Configuration) (values : list Pair)
    (st : State) :
  (forall a b : nat, (a <= b)%nat -> now E a <= now E b) ->
  let '(values1, st1) := expiryLoop E c values st in
  ticks st1 = (ticks st + length values)%nat
  /\ forall (i j : nat) (p q : Pair),
       (i <= j)%nat -> values1 !! i = Some p -> values1 !! j = Some q ->
       Expires p <= Expires q.
Proof.
  intros Hmono.
  destruct (expiryLoop E c values st) as [values1 st1] eqn:H.
  apply expiryLoop_spec in H as (Hlen & Ht & _ & Hv).
  split; [exact Ht|]. intros i j p q Hij Hi Hj.
  assert (Hi' : (i < length values)%nat)
    by (rewrite <- Hlen; eapply lookup_lt_Some; exact Hi).
  assert (Hj' : (j < length values)%nat)
    by (rewrite <- Hlen; eapply lookup_lt_Some; exact Hj).
  destruct (lookup_lt_is_Some_2 values i Hi') as [p0 Hp0].
  destruct (lookup_lt_is_Some_2 values j Hj') as [q0 Hq0].
  rewrite (Hv i p0 Hp0) in Hi. rewrite (Hv j q0 Hq0) in Hj.
  injection Hi as <-. injection Hj as <-. cbn [Expires].
  assert (now E (ticks st + i) <= now E (ticks st + j)) by (apply Hmono; lia).
  lia.
Qed.

Lemma expiryLoop_ordered_witness :
  let out := expiryLoop (testEnv decodeFixture) production emailPairs
               (initState "51da.uk") in
  ticks (snd out) = 2%nat
  /\ forall p q, fst out !! 0%nat = Some p -> fst out !! 1%nat = Some q ->
                 Expires p <= Expires q.
Proof.
  intros out. subst out.
  pose proof (expiryLoop_ordered (testEnv decodeFixture) production emailPairs
                (initState "51da.uk")) as H.
  destruct (expiryLoop (testEnv decodeFixture) production emailPairs
              (initState "51da.uk")) as [values1 st1].
  destruct H as [Ht Ho].
  - intros a b Hab. cbn [testEnv now fxClock decodeFixture].
    unfold slowClock. lia.
  - split; [exact Ht|]. intros p q Hp Hq.
    apply (Ho 0%nat 1%nat p q); [lia | exact Hp | exact Hq].
Defined.

(** ** The fetch handler: its calls *)

Definition isDiscovery (e : Event) : bool :=
  match e with EvGetAccessNode _ => true | _ => false end.

Lemma checkAccessNode_events (E : Env) (c : Configuration) st :
  exists disc,
    events (snd (checkAccessNode E c st)) = events st ++ disc
    /\ (length disc <= 1)%nat /\ forallb isDiscovery disc = true.
Proof.
  unfold checkAccessNode. destruct (String.eqb (accessNode st) "").
  - destruct (GetAccessNode E (Network c)) as [an err].
    exists [EvGetAccessNode (Network c)].
    destruct (negb (isNil err) && String.eqb an ""); repeat split; cbn; lia.
  - exists []. cbn [snd]. rewrite app_nil_r. repeat split. cbn. lia.
Qed.

(** X23: whatever the request and whatever the validator answers,
    [handlerFetch] asks the storage network for the access node at most
    once and sends at most one request, in that order, and never hands
    anything over for signing. *)
Theorem handlerFetch_events (E : Env) (c : Configuration) (r : Request)
    (st : State) :
  exists disc gets,
    events (handlerFetch E c r st) = events st ++ disc ++ gets
    /\ (length disc <= 1)%nat /\ forallb isDiscovery disc = true
    /\ (length gets <= 1)%nat /\ forallb isGet gets = true.
Proof.
  assert (Hnone : forall err code,
             exists disc gets,
               events (returnAPIError c err code st) = events st ++ disc ++ gets
               /\ (length disc <= 1)%nat /\ forallb isDiscovery disc = true
               /\ (length gets <= 1)%nat /\ forallb isGet gets = true).
  { intros err code. exists [], [].
    destruct (returnAPIError_events c err code st) as (-> & _).
    rewrite app_nil_r. repeat split; cbn; lia. }
  unfold handlerFetch.
  destruct (getAccessAllowed E r); cbn [negb]; [|apply Hnone].
  destruct (ParseFormErr r) as [err|]; [apply Hnone|].
  destruct (url_ParseQuery E (Values_Encode (Form r))) as [q [err|]];
    [apply Hnone|].
  destruct (validateCommon E r q (resp st)) as [[ok q1] w1].
  set (st1 := setResp w1 st).
  assert (Hcreate : exists disc gets,
             events (snd (createStorageOperationURL E c q1 (fetchInject E) st1))
             = events st ++ disc ++ gets
             /\ (length disc <= 1)%nat /\ forallb isDiscovery disc = true
             /\ (length gets <= 1)%nat /\ forallb isGet gets = true).
  { unfold createStorageOperationURL.
    destruct (checkAccessNode_events E c st1) as (disc & Hd & Hl & Ha).
    destruct (checkAccessNode E c st1) as [[e|] st2]; cbn [snd] in *.
    - exists disc, []. rewrite app_nil_r. repeat split; try assumption.
      cbn. lia.
    - destruct (requestStorageOperation_request E c q1 (fetchInject E) st2)
        as [-> _].
      eexists disc, [_]. cbn [emit events fetchInject snd drawUUID tick].
      rewrite Hd. cbn [st1 setResp events]. rewrite <- app_assoc.
      repeat split; try assumption. cbn. lia. }
  destruct (createStorageOperationURL E c q1 (fetchInject E) st1)
    as [[[u [err|]] q2] st2]; cbn [snd] in Hcreate.
  - destruct Hcreate as (disc & gets & He & H).
    exists disc, gets.
    destruct (returnAPIError_events c err StatusInternalServerError st2)
      as (-> & _).
    split; assumption.
  - destruct Hcreate as (disc & gets & He & H).
    exists disc, gets.
    destruct (Write u _) as [w5 [e|]].
    + destruct (returnAPIError_events c e StatusInternalServerError
                  (setResp w5 st2)) as (-> & _).
      split; assumption.
    + split; assumption.
Qed.
